(** * DFU updater: job orchestration, progress reporting and configuration

    A shallow embedding of [app.py]: the configuration loader
    [load_config], the progress store [_set_progress], the single-flight
    entry point [DfuApi.start_dfu] with its background job [run], and the
    read-only methods [get_progress] and [get_defaults].

    Modelling choices.
    - Python exceptions are values [pyexc] (class and [str(e)] text);
      fallible code returns [result].
    - The parsed contents of [config.json] are a [json] value; a Python
      [dict] is a [gmap string json].
    - Percentages are Python floats in the source.  They are modelled as
      exact rationals [Q]; [round(x, 1)] is rounding to one decimal with
      ties to the even digit.
    - [DfuApi] methods are programs ([prog]) over the shared object: a
      finite tree of atomic actions (lock acquire and release, writes of
      [_running] and [_progress], one read of [_running], calls into the
      external controller).  The same program is run alone by [exec] and
      interleaved with another call by [cstep].
    - The external [PlatformController] is opaque: its behaviour during
      one call is a record of outcomes, universally quantified in the
      theorems.
    - [timeout] is an integer, so that [int(timeout)] is [timeout]. *)

From Stdlib Require Import ZArith QArith Qround Bool Lia Lqa.
From stdpp Require Import base tactics option list strings gmap.

#[local] Set Warnings "-register-all,-clear-no-such-hyp".
#[local] Open Scope string_scope.
#[local] Open Scope list_scope.
#[local] Open Scope Z_scope.

(** ** Python exceptions *)

Module Py.

Inductive exc_class :=
  | BaseException
  | KeyboardInterrupt
  | SystemExit
  | Exception
  | RuntimeError
  | TypeError
  | KeyError
  | ValueError
  | UnicodeDecodeError
  | JSONDecodeError
  | OSError
  | LibraryError.  (* any Exception subclass defined by the controller package *)

#[global] Instance exc_class_eq_dec : EqDecision exc_class.
Proof. solve_decision. Defined.

(** The direct base class, as in the Python class hierarchy. *)
Definition base (c : exc_class) : option exc_class :=
  match c with
  | BaseException => None
  | KeyboardInterrupt | SystemExit | Exception => Some BaseException
  | RuntimeError | TypeError | KeyError | ValueError | OSError | LibraryError =>
      Some Exception
  | UnicodeDecodeError | JSONDecodeError => Some ValueError
  end.

Fixpoint issubclass_upto (n : nat) (c d : exc_class) : bool :=
  bool_decide (c = d) ||
  match n, base c with
  | S n, Some b => issubclass_upto n b d
  | _, _ => false
  end.

(** The hierarchy above has depth three. *)
Definition issubclass : exc_class -> exc_class -> bool := issubclass_upto 3.

Record pyexc := Exc { exc_type : exc_class; exc_text : string }.

#[global] Instance pyexc_eq_dec : EqDecision pyexc.
Proof. solve_decision. Defined.

Definition isinstance (e : pyexc) (c : exc_class) : bool :=
  issubclass (exc_type e) c.

Inductive result (A : Type) :=
  | Ok (a : A)
  | Raised (e : pyexc).

Arguments Ok {A} a.

Arguments Raised {A} e.

End Py.

Import Py.

(** ** Configuration: [DEFAULT_ADVANCED] and [load_config] *)

Inductive json :=
  | JNull
  | JBool (b : bool)
  | JInt (z : Z)
  | JFloat (q : Q)
  | JStr (s : string)
  | JArr (l : list json)
  | JObj (m : gmap string json).

Definition DEFAULT_ADVANCED : list (string * json) :=
  [ ("app_id", JInt 1);
    ("start_address", JInt 0);
    ("block_size", JInt 512);
    ("ring_type", JInt 8);
    ("force_flags", JInt 0);
    ("reboot_wait", JInt 10) ].

(** [dict(DEFAULT_ADVANCED)] *)
Definition default_dict : gmap string json := list_to_map DEFAULT_ADVANCED.

(** Iterating a dict yields its keys in insertion order. *)
Definition default_keys : list string := DEFAULT_ADVANCED.*1.

(** [needle in hay] on two [str]: substring search. *)
Definition str_contains (needle hay : string) : bool :=
  match String.index 0 needle hay with
  | Some _ => true
  | None => false
  end.

Definition json_type_name (data : json) : string :=
  match data with
  | JNull => "NoneType"
  | JBool _ => "bool"
  | JInt _ => "int"
  | JFloat _ => "float"
  | JStr _ => "str"
  | JArr _ => "list"
  | JObj _ => "dict"
  end.

(** [key in data], for [key] a [str] and [data] whatever [json.load]
    returned. *)
Definition py_contains (key : string) (data : json) : result bool :=
  match data with
  | JObj m => Ok (bool_decide (is_Some (m !! key)))
  | JArr l =>
      Ok (existsb (fun v => match v with
                            | JStr s => bool_decide (s = key)
                            | _ => false
                            end) l)
  | JStr s => Ok (str_contains key s)
  | _ =>
      Raised (Exc TypeError
                ("argument of type '" +:+ json_type_name data +:+ "' is not iterable"))
  end.

(** [data[key]], for [key] a [str]. *)
Definition py_getitem (data : json) (key : string) : result json :=
  match data with
  | JObj m =>
      match m !! key with
      | Some v => Ok v
      | None => Raised (Exc KeyError ("'" +:+ key +:+ "'"))
      end
  | JArr _ => Raised (Exc TypeError "list indices must be integers or slices, not str")
  | JStr _ => Raised (Exc TypeError "string indices must be integers, not 'str'")
  | _ =>
      Raised (Exc TypeError
                ("'" +:+ json_type_name data +:+ "' object is not subscriptable"))
  end.

(** What the file system holds at [CONFIG_PATH] when [load_config] looks. *)
Inductive config_file :=
  | NoFile                              (* [CONFIG_PATH.exists()] is false *)
  | FileLoads (outcome : result json).  (* outcome of [open] and [json.load] *)

(** The [for key in DEFAULT_ADVANCED] loop; [merged] is updated in place,
    so an exception leaves the updates made so far. *)
Fixpoint merge_keys (keys : list string) (data : json)
    (merged : gmap string json) : gmap string json * option pyexc :=
  match keys with
  | [] => (merged, None)
  | key :: keys =>
      match py_contains key data with
      | Raised e => (merged, Some e)
      | Ok false => merge_keys keys data merged
      | Ok true =>
          match py_getitem data key with
          | Raised e => (merged, Some e)
          | Ok v => merge_keys keys data (<[key := v]> merged)
          end
      end
  end.

Definition load_config (f : config_file) : result (gmap string json) :=
  let merged := default_dict in
  match f with
  | NoFile => Ok merged
  | FileLoads outcome =>
      let '(merged, raised) :=
        match outcome with
        | Raised e => (merged, Some e)
        | Ok data => merge_keys default_keys data merged
        end in
      match raised with
      | None => Ok merged
      | Some e =>
          (* except (json.JSONDecodeError, OSError): pass *)
          if isinstance e JSONDecodeError || isinstance e OSError
          then Ok merged
          else Raised e
      end
  end.

(** ** Progress snapshots *)

Record snapshot := Snapshot {
  current : Z;
  total : Z;
  message : string;
  percentage : Q;
}.

(** Nearest integer, ties to even. *)
Definition round_half_even (q : Q) : Z :=
  let f := Qfloor q in
  match (q - inject_Z f ?= 1 # 2)%Q with
  | Lt => f
  | Gt => f + 1
  | Eq => if Z.even f then f else f + 1
  end.

(** [round(q, 1)] *)
Definition round1 (q : Q) : Q := Qred (Qmake (round_half_even (q * 10)) 10).

(** [(current / total) * 100] *)
Definition percent_of (current total : Z) : Q :=
  ((inject_Z current / inject_Z total) * 100)%Q.

(** ** Programs over the shared [DfuApi] object *)

(** Keyword arguments of [pc.dfu.perform_dfu]. *)
Record dfu_args := DfuArgs {
  arg_firmware_path : string;
  arg_app_id : json;
  arg_version : string;
  arg_start_address : json;
  arg_block_size : json;
  arg_ring_type : json;
  arg_force_flags : json;
  arg_reboot_wait : json;
}.

(** Calls that leave the orchestration layer. *)
Inductive ext_call :=
  | CallInit (hw_id client_type : string)
  | CallConfigure (target_name : string) (timeout : Z)
  | CallSetProgressCallback
  | CallLoadConfig
  | CallPerformDfu (a : dfu_args)
  | CallThreadStart              (* [thread.start()] *)
  | CallThreadJoin.              (* [thread.join()] *)

Inductive action :=
  | Acquire                      (* [self._progress_lock.__enter__()] *)
  | Release                      (* [self._progress_lock.__exit__()] *)
  | SetRunning (b : bool)        (* [self._running = b] *)
  | SetProgress (s : snapshot)   (* [self._progress = {...}] *)
  | Call (c : ext_call).

Inductive prog (R : Type) :=
  | Done (r : R)
  | Act (a : action) (k : prog R)
  | IfRunning (kt kf : prog R).   (* [if self._running: kt else: kf] *)

Arguments Done {R} r.

Arguments Act {R} a k.

Arguments IfRunning {R} kt kf.

Fixpoint pbind {A B} (p : prog A) (f : A -> prog B) : prog B :=
  match p with
  | Done r => f r
  | Act a k => Act a (pbind k f)
  | IfRunning kt kf => IfRunning (pbind kt f) (pbind kf f)
  end.

(** Sequencing that stops at the first raised exception. *)
Definition bind_ok {A B} (p : prog (result A)) (f : A -> prog (result B))
    : prog (result B) :=
  pbind p (fun r => match r with
                    | Ok a => f a
                    | Raised e => Done (Raised e)
                    end).

Notation "x <- p ;; q" := (bind_ok p (fun x => q))
  (at level 100, p at next level, right associativity).

Notation "p ;;; q" := (bind_ok p (fun _ => q))
  (at level 100, right associativity).

Definition ret {A} (a : A) : prog (result A) := Done (Ok a).

Definition raise {A} (e : pyexc) : prog (result A) := Done (Raised e).

Definition lift {A} (r : result A) : prog (result A) := Done r.

(** [try: p  except Exception as e: handler e] *)
Definition try_except {A} (p : prog (result A)) (handler : pyexc -> prog (result A))
    : prog (result A) :=
  pbind p (fun r => match r with
                    | Ok a => Done (Ok a)
                    | Raised e =>
                        if isinstance e Exception then handler e
                        else Done (Raised e)
                    end).

(** [try: p  finally: fin] *)
Definition try_finally {A} (p : prog (result A)) (fin : prog (result unit))
    : prog (result A) :=
  pbind p (fun r =>
  pbind fin (fun r' => match r' with
                       | Ok _ => Done r
                       | Raised e' => Done (Raised e')
                       end)).

(** [with self._progress_lock: p] *)
Definition with_lock {A} (p : prog (result A)) : prog (result A) :=
  Act Acquire (pbind p (fun r => Act Release (Done r))).

(** An external call: the call is made, its outcome comes back. *)
Definition call {A} (c : ext_call) (outcome : result A) : prog (result A) :=
  Act (Call c) (Done outcome).

(** ** The shared object and its semantics *)

Inductive tid := T1 | T2.

#[global] Instance tid_eq_dec : EqDecision tid.
Proof. solve_decision. Defined.

Record DfuApi := MkApi {
  _progress : snapshot;
  _progress_lock : option tid;   (* [None]: unlocked; [Some i]: taken by [i] *)
  _running : bool;
}.

(** [DfuApi.__init__] *)
Definition init_api : DfuApi :=
  {| _progress := {| current := 0; total := 0; message := ""; percentage := 0 |};
     _progress_lock := None;
     _running := false |}.

(** What one atomic step did. *)
Inductive label :=
  | LAct (a : action)
  | LCheck (b : bool).   (* read [self._running], found [b] *)

(** One action by thread [i].  [Acquire] blocks ([None]) while the lock is
    taken; [Release] of a lock the thread does not hold has no step. *)
Definition do_action (i : tid) (a : action) (st : DfuApi) : option DfuApi :=
  match a with
  | Acquire =>
      match _progress_lock st with
      | None => Some (MkApi (_progress st) (Some i) (_running st))
      | Some _ => None
      end
  | Release =>
      if bool_decide (_progress_lock st = Some i)
      then Some (MkApi (_progress st) None (_running st))
      else None
  | SetRunning b => Some (MkApi (_progress st) (_progress_lock st) b)
  | SetProgress s => Some (MkApi s (_progress_lock st) (_running st))
  | Call _ => Some st
  end.

Definition tstep {R} (i : tid) (p : prog R) (st : DfuApi)
    : option (label * prog R * DfuApi) :=
  match p with
  | Done _ => None
  | Act a k =>
      match do_action i a st with
      | Some st' => Some (LAct a, k, st')
      | None => None
      end
  | IfRunning kt kf =>
      Some (LCheck (_running st), if _running st then kt else kf, st)
  end.

(** Running a program to completion with no other thread around: the
    outcome, the final object and the steps taken, or [None] when the
    program blocks. *)
Fixpoint exec {R} (i : tid) (p : prog R) (st : DfuApi)
    : option (R * DfuApi * list label) :=
  match p with
  | Done r => Some (r, st, [])
  | Act a k =>
      match do_action i a st with
      | Some st' =>
          match exec i k st' with
          | Some (r, st'', tr) => Some (r, st'', LAct a :: tr)
          | None => None
          end
      | None => None
      end
  | IfRunning kt kf =>
      match exec i (if _running st then kt else kf) st with
      | Some (r, st', tr) => Some (r, st', LCheck (_running st) :: tr)
      | None => None
      end
  end.

(** ** [DfuApi] methods *)

(** The external controller as seen by one job: for each method, whether
    it returns or raises; for [perform_dfu], also the progress callbacks
    it makes before it does. *)
Record controller := Controller {
  pc_init : string -> string -> result unit;
  pc_configure : string -> Z -> result unit;
  pc_set_progress_callback : result unit;
  pc_perform_dfu : dfu_args -> list (Z * Z * string) * result bool;
}.

Definition _set_progress (current total : Z) (message : string)
    (percentage : option Q) : prog (result unit) :=
  let percentage :=
    match percentage with
    | None => if 0 <? total then percent_of current total else 0%Q
    | Some p => p
    end in
  with_lock
    (Act (SetProgress {| current := current; total := total;
                         message := message;
                         percentage := round1 percentage |})
         (ret tt)).

(** The closure [progress_callback] defined inside [run]. *)
Definition progress_callback (current total : Z) (message : string)
    : prog (result unit) :=
  let percentage := if 0 <? total then percent_of current total else 0%Q in
  _set_progress current total message (Some percentage).

Fixpoint relay (events : list (Z * Z * string)) : prog (result unit) :=
  match events with
  | [] => ret tt
  | (c, t, m) :: events => progress_callback c t m ;;; relay events
  end.

(** [cfg[key]] on the dict returned by [load_config]. *)
Definition dict_getitem (cfg : gmap string json) (key : string) : result json :=
  match cfg !! key with
  | Some v => Ok v
  | None => Raised (Exc KeyError ("'" +:+ key +:+ "'"))
  end.

Section StartDfu.

(** The module-level name [PlatformController]: [None] when the import
    failed. *)
Variable PlatformController : option controller.

(** [config.json] as the job finds it. *)
Variable fs : config_file.

Variables (firmware_path version target_name hw_id : string) (timeout : Z).

Definition unavailable : pyexc :=
  Exc RuntimeError
    "PlatformController is not installed. Add the package that provides it to requirements.txt (e.g. platform_controller or pyring).".

Definition already_running : pyexc := Exc RuntimeError "DFU is already running.".

Definition did_not_return : pyexc := Exc RuntimeError "DFU thread did not return.".

Definition starting : snapshot :=
  {| current := 0; total := 0; message := "Starting…"; percentage := 0 |}.

(** Lines 90-94: the admission block. *)
Definition admission : prog (result unit) :=
  with_lock
    (IfRunning
       (raise already_running)
       (Act (SetRunning true) (Act (SetProgress starting) (ret tt)))).

(** The [try] body of [run]. *)
Definition run_body (pc : controller) : prog (result bool) :=
  _set_progress 0 0 "Connecting…" None ;;;
  call (CallInit hw_id "ble") (pc_init pc hw_id "ble") ;;;
  call (CallConfigure target_name timeout) (pc_configure pc target_name timeout) ;;;
  call CallSetProgressCallback (pc_set_progress_callback pc) ;;;
  _set_progress 0 0 "Performing DFU…" None ;;;
  cfg <- call CallLoadConfig (load_config fs) ;;
  app_id <- lift (dict_getitem cfg "app_id") ;;
  start_address <- lift (dict_getitem cfg "start_address") ;;
  block_size <- lift (dict_getitem cfg "block_size") ;;
  ring_type <- lift (dict_getitem cfg "ring_type") ;;
  force_flags <- lift (dict_getitem cfg "force_flags") ;;
  reboot_wait <- lift (dict_getitem cfg "reboot_wait") ;;
  let args := DfuArgs firmware_path app_id version start_address block_size
                      ring_type force_flags reboot_wait in
  success <- (Act (Call (CallPerformDfu args))
                (relay (fst (pc_perform_dfu pc args)) ;;;
                 lift (snd (pc_perform_dfu pc args)))) ;;
  (if success : bool
   then _set_progress 100 100 "DFU completed successfully." (Some 100%Q)
   else _set_progress 0 0 "DFU failed." (Some 0%Q)) ;;;
  ret success.

(** The closure [run]. *)
Definition run (pc : controller) : prog (result bool) :=
  try_finally
    (try_except (run_body pc)
       (fun e =>
          _set_progress 0 0 ("Error: " +:+ exc_text e) (Some 0%Q) ;;;
          raise e))
    (with_lock (Act (SetRunning false) (ret tt))).

(** What [result_holder] can hold. *)
Inductive held :=
  | HeldBool (b : bool)
  | HeldExc (e : pyexc).

(** The closure [run_and_capture], as a function of the list it appends
    to.  An exception outside [Exception] is not caught: the thread
    dies and the list stays as it was. *)
Definition run_and_capture (pc : controller) (result_holder : list held)
    : prog (list held) :=
  pbind (run pc) (fun r =>
    match r with
    | Ok b => Done (result_holder ++ [HeldBool b])
    | Raised e =>
        if isinstance e Exception
        then Done (result_holder ++ [HeldExc e])
        else Done result_holder
    end).

(** [start_dfu].  The caller starts the thread and joins it at once, so
    caller and thread are one line of control: [run_and_capture] is
    sequenced between the start and the join. *)
Definition start_dfu : prog (result bool) :=
  match PlatformController with
  | None => raise unavailable
  | Some pc =>
      admission ;;;
      Act (Call CallThreadStart)
        (pbind (run_and_capture pc [])
           (fun result_holder =>
              Act (Call CallThreadJoin)
                match result_holder with
                | r :: _ =>
                    match r with
                    | HeldExc e => raise e
                    | HeldBool b => ret b
                    end
                | [] => raise did_not_return
                end))
  end.

End StartDfu.

(** ** Names used in statements about runs *)

(** The steps of [p] go before those of what follows. *)
Definition after {R} (tr : list label) (o : option (R * DfuApi * list label))
    : option (R * DfuApi * list label) :=
  match o with
  | Some (r, st, tr') => Some (r, st, tr ++ tr')
  | None => None
  end.

(** The snapshot a [_set_progress] call stores. *)
Definition stored (current total : Z) (message : string) (percentage : option Q)
    : snapshot :=
  {| current := current; total := total; message := message;
     percentage := round1 (match percentage with
                           | None => if 0 <? total then percent_of current total else 0%Q
                           | Some p => p
                           end) |}.

Definition write_steps (s : snapshot) : list label :=
  [LAct Acquire; LAct (SetProgress s); LAct Release].

(** What the relayed callbacks leave behind. *)
Definition relayed (ev : Z * Z * string) : snapshot :=
  let '(c, t, m) := ev in
  stored c t m (Some (if 0 <? t then percent_of c t else 0%Q)).

Definition relay_steps (events : list (Z * Z * string)) : list label :=
  flat_map (fun ev => write_steps (relayed ev)) events.

Definition relay_last (events : list (Z * Z * string)) (pr : snapshot) : snapshot :=
  foldl (fun _ ev => relayed ev) pr events.

#[global] Instance json_inhabited : Inhabited json := populate JNull.

(** *** Names for the snapshots and steps of a call *)

Section JobSteps.

Variables (firmware_path version target_name hw_id : string) (timeout : Z).

Definition connecting : snapshot := stored 0 0 "Connecting…" None.

Definition performing : snapshot := stored 0 0 "Performing DFU…" None.

Definition completed : snapshot :=
  stored 100 100 "DFU completed successfully." (Some 100%Q).

Definition failed : snapshot := stored 0 0 "DFU failed." (Some 0%Q).

Definition errored (e : pyexc) : snapshot :=
  stored 0 0 ("Error: " +:+ exc_text e) (Some 0%Q).

(** The arguments [perform_dfu] gets from a loaded configuration. *)
Definition resolved (cfg : gmap string json) : dfu_args :=
  DfuArgs firmware_path (cfg !!! "app_id") version (cfg !!! "start_address")
          (cfg !!! "block_size") (cfg !!! "ring_type") (cfg !!! "force_flags")
          (cfg !!! "reboot_wait").

(** The job's steps up to and including the call of [perform_dfu]. *)
Definition prelude (cfg : gmap string json) : list label :=
  write_steps connecting ++
  [LAct (Call (CallInit hw_id "ble"));
   LAct (Call (CallConfigure target_name timeout));
   LAct (Call CallSetProgressCallback)] ++
  write_steps performing ++
  [LAct (Call CallLoadConfig);
   LAct (Call (CallPerformDfu (resolved cfg)))].

Definition reset_steps : list label :=
  [LAct Acquire; LAct (SetRunning false); LAct Release].

Definition admission_steps : list label :=
  [LAct Acquire; LCheck false; LAct (SetRunning true);
   LAct (SetProgress starting); LAct Release].

(** The snapshot left by the [except] clause, if it runs. *)
Definition settled (r : result bool) (pr : snapshot) : snapshot :=
  match r with
  | Ok _ => pr
  | Raised e => if isinstance e Exception then errored e else pr
  end.

Definition handler_steps (r : result bool) : list label :=
  match r with
  | Ok _ => []
  | Raised e => if isinstance e Exception then write_steps (errored e) else []
  end.

Definition rejected_steps : list label := [LAct Acquire; LCheck true; LAct Release].

(** What [start_dfu] does with the job's outcome after the join. *)
Definition delivered (r : result bool) : result bool :=
  match r with
  | Ok b => Ok b
  | Raised e => if isinstance e Exception then Raised e else Raised did_not_return
  end.

(** [result_holder] after the join. *)
Definition captured (r : result bool) : list held :=
  match r with
  | Ok b => [HeldBool b]
  | Raised e => if isinstance e Exception then [HeldExc e] else []
  end.

End JobSteps.

(** ** Controllers for concrete runs *)

(** One that works. *)
Definition quiet : controller :=
  {| pc_init := fun _ _ => Ok tt;
     pc_configure := fun _ _ => Ok tt;
     pc_set_progress_callback := Ok tt;
     pc_perform_dfu := fun _ => ([(5, 10, "writing")], Ok true) |}.

(** One that reports failure, and one whose update raises [e]. *)
Definition failing : controller :=
  {| pc_init := fun _ _ => Ok tt;
     pc_configure := fun _ _ => Ok tt;
     pc_set_progress_callback := Ok tt;
     pc_perform_dfu := fun _ => ([], Ok false) |}.

Definition raising (e : pyexc) : controller :=
  {| pc_init := fun _ _ => Ok tt;
     pc_configure := fun _ _ => Ok tt;
     pc_set_progress_callback := Ok tt;
     pc_perform_dfu := fun _ => ([(1, 4, "erasing")], Raised e) |}.

Definition link_lost : pyexc := Exc LibraryError "BLE link lost".

(** ** Order of the job's steps *)

Inductive step_kind :=
  | EmitProgress
  | Construct
  | Configure
  | RegisterCallback
  | ResolveConfig
  | PerformUpdate.

#[global] Instance step_kind_eq_dec : EqDecision step_kind.
Proof. solve_decision. Defined.

Definition step_kind_of (l : label) : option step_kind :=
  match l with
  | LAct (SetProgress _) => Some EmitProgress
  | LAct (Call (CallInit _ _)) => Some Construct
  | LAct (Call (CallConfigure _ _)) => Some Configure
  | LAct (Call CallSetProgressCallback) => Some RegisterCallback
  | LAct (Call CallLoadConfig) => Some ResolveConfig
  | LAct (Call (CallPerformDfu _)) => Some PerformUpdate
  | LAct (Call CallThreadStart) | LAct (Call CallThreadJoin) => None
  | LAct Acquire | LAct Release | LAct (SetRunning _) | LCheck _ => None
  end.

(** The kinds of steps taken, up to and including the first call of
    [perform_dfu]. *)
Fixpoint up_to_perform (ks : list step_kind) : list step_kind :=
  match ks with
  | [] => []
  | PerformUpdate :: _ => [PerformUpdate]
  | k :: ks => k :: up_to_perform ks
  end.

Definition job_steps (tr : list label) : list step_kind :=
  up_to_perform (omap step_kind_of tr).

(** The order of the job's steps in the words of the specification:
    connecting, resolve configuration, configure, register callback,
    performing, perform-update.  (It does not list the construction of
    the controller.) *)
Definition order_in_spec : list step_kind :=
  [EmitProgress; ResolveConfig; Configure; RegisterCallback; EmitProgress;
   PerformUpdate].

(** One round of the loop in [load_config] when the document is the
    object [m]. *)
Definition override (m : gmap string json) (merged : gmap string json) (key : string)
    : gmap string json :=
  match m !! key with
  | Some v => <[key := v]> merged
  | None => merged
  end.

(** ** Two calls at once *)

(** Two threads, each inside one call of [start_dfu] on the same object.
    [history] records who did what, oldest first. *)
Record system := System {
  shared : DfuApi;
  thr1 : prog (result bool);
  thr2 : prog (result bool);
  history : list (tid * label);
}.

Definition thread (s : system) (i : tid) : prog (result bool) :=
  match i with T1 => thr1 s | T2 => thr2 s end.

Definition other (i : tid) : tid := match i with T1 => T2 | T2 => T1 end.

(** Thread [i] takes its next step, if it can. *)
Definition cstep (i : tid) (s : system) : option system :=
  match tstep i (thread s i) (shared s) with
  | Some (l, p', st') =>
      Some (match i with
            | T1 => System st' p' (thr2 s) (history s ++ [(i, l)])
            | T2 => System st' (thr1 s) p' (history s ++ [(i, l)])
            end)
  | None => None
  end.

Fixpoint run_schedule (sched : list tid) (s : system) : option system :=
  match sched with
  | [] => Some s
  | i :: sched =>
      match cstep i s with
      | Some s' => run_schedule sched s'
      | None => None
      end
  end.

Inductive reachable (s0 : system) : system -> Prop :=
  | reachable_start : reachable s0 s0
  | reachable_step s i s' : reachable s0 s -> cstep i s = Some s' -> reachable s0 s'.

Definition is_admit (l : label) : bool :=
  match l with LAct (SetRunning true) => true | _ => false end.

Definition is_reset (l : label) : bool :=
  match l with LAct (SetRunning false) => true | _ => false end.

Definition is_reject (l : label) : bool :=
  match l with LCheck true => true | _ => false end.

(** How many steps of thread [i] in the history satisfy [f]. *)
Fixpoint count (f : label -> bool) (i : tid) (hist : list (tid * label)) : nat :=
  match hist with
  | [] => 0
  | (j, l) :: hist => (if bool_decide (j = i) && f l then 1 else 0) + count f i hist
  end.

(** Times thread [i] set [_running], cleared it, and found it set. *)
Definition admissions : tid -> list (tid * label) -> nat := count is_admit.

Definition resets : tid -> list (tid * label) -> nat := count is_reset.

Definition rejections : tid -> list (tid * label) -> nat := count is_reject.


(** Where a call stands with respect to the flag. *)
Inductive phase :=
  | Fresh      (* has not read the flag *)
  | Rejected   (* read the flag and found it set *)
  | Checked    (* read the flag, found it clear, has not set it yet *)
  | Owner      (* has set the flag: its job is running *)
  | Finished.  (* has cleared the flag again *)

#[global] Instance phase_eq_dec : EqDecision phase.
Proof. solve_decision. Defined.

Definition next_phase (l : label) (ph : phase) : phase :=
  match l with
  | LCheck true => Rejected
  | LCheck false => Checked
  | LAct (SetRunning true) => Owner
  | LAct (SetRunning false) => Finished
  | _ => ph
  end.

Definition next_hold (l : label) (h : bool) : bool :=
  match l with
  | LAct Acquire => true
  | LAct Release => false
  | _ => h
  end.

(** Phase of thread [i], and whether it holds the lock, after [hist]. *)
Definition mode_of (i : tid) (hist : list (tid * label)) : phase * bool :=
  foldl (fun m x => if bool_decide (x.1 = i)
                    then (next_phase x.2 m.1, next_hold x.2 m.2)
                    else m)
        (Fresh, false) hist.

(** The locking discipline: started in phase [ph], holding the lock or
    not ([h]), the program acquires only a lock it does not hold,
    releases only one it holds, touches [_running] and [_progress] only
    while holding it, reads the flag only when fresh, sets it only right
    after reading it clear, clears it only as owner, and ends in a phase
    and with a result that [post] accepts. *)
Fixpoint disc {R} (ph : phase) (h : bool) (p : prog R)
    (post : R -> phase -> bool -> Prop) : Prop :=
  match p with
  | Done r => post r ph h
  | Act Acquire k => h = false /\ disc ph true k post
  | Act Release k => h = true /\ ph <> Checked /\ disc ph false k post
  | Act (SetRunning true) k => h = true /\ ph = Checked /\ disc Owner true k post
  | Act (SetRunning false) k => h = true /\ ph = Owner /\ disc Finished true k post
  | Act (SetProgress _) k => h = true /\ disc ph true k post
  | Act (Call _) k => disc ph h k post
  | IfRunning kt kf =>
      h = true /\ ph = Fresh /\ disc Rejected true kt post /\ disc Checked true kf post
  end.

(** How a call of [start_dfu] may end: turned away with "already
    running", or with its job finished; either way without the lock. *)
Definition call_end (r : result bool) (ph : phase) (h : bool) : Prop :=
  h = false /\ ((ph = Rejected /\ r = Raised already_running) \/ ph = Finished).

(** What holds of every state two calls can reach. *)
Record single_flight (s : system) : Prop := SingleFlight {
  sf_disc : forall i,
    disc (mode_of i (history s)).1 (mode_of i (history s)).2 (thread s i) call_end;
  sf_lock : forall i,
    (mode_of i (history s)).2 = true <-> _progress_lock (shared s) = Some i;
  sf_flag :
    _running (shared s) = true <-> exists i, (mode_of i (history s)).1 = Owner;
  sf_one : forall i,
    (mode_of i (history s)).1 = Owner -> (mode_of (other i) (history s)).1 <> Owner;
  sf_checked : forall i,
    (mode_of i (history s)).1 = Checked ->
    (mode_of i (history s)).2 = true /\ _running (shared s) = false;
  sf_rejected : forall i,
    (mode_of i (history s)).1 = Rejected ->
    (mode_of (other i) (history s)).1 = Owner \/
    (mode_of (other i) (history s)).1 = Finished;
  sf_tally : forall i,
    (rejections i (history s), admissions i (history s), resets i (history s)) =
    match (mode_of i (history s)).1 with
    | Fresh | Checked => (0, 0, 0)
    | Rejected => (1, 0, 0)
    | Owner => (0, 1, 0)
    | Finished => (0, 1, 1)
    end%nat;
}.

(** Two calls of [start_dfu], with the controller available, on a new
    object. *)
Definition two_calls (pc1 pc2 : controller) (fs1 fs2 : config_file)
    (fw1 ver1 tgt1 hw1 : string) (tmo1 : Z) (fw2 ver2 tgt2 hw2 : string) (tmo2 : Z)
    : system :=
  {| shared := init_api;
     thr1 := start_dfu (Some pc1) fs1 fw1 ver1 tgt1 hw1 tmo1;
     thr2 := start_dfu (Some pc2) fs2 fw2 ver2 tgt2 hw2 tmo2;
     history := [] |}.

(** A program that leaves phase and lock as it found them. *)
Definition keeps (ph : phase) {A} (p : prog (result A)) : Prop :=
  disc ph false p (fun _ ph' h' => ph' = ph /\ h' = false).

(** ** The read-only methods *)


(** The dict [get_defaults] returns. *)
Record form_defaults := FormDefaults {
  form_firmware_path : string;
  form_version : string;
  form_target_name : string;
  form_hw_id : string;
  form_timeout : Z;
  form_advanced : gmap string json;
}.

(** [get_defaults]; [default_firmware_path] is [str(DEFAULT_FIRMWARE_PATH)],
    which depends on where the script is installed. *)
Definition get_defaults (default_firmware_path : string) (f : config_file)
    : result form_defaults :=
  match load_config f with
  | Ok cfg =>
      Ok {| form_firmware_path := default_firmware_path;
            form_version := "0.2.12";
            form_target_name := "oura_";
            form_hw_id := "BEM_04";
            form_timeout := 10;
            form_advanced := cfg |}
  | Raised e => Raised e
  end.

(** ** Measures on runs *)

(** The snapshots a run stored, in order. *)
Definition writes (tr : list label) : list snapshot :=
  omap (fun l => match l with
                 | LAct (SetProgress s) => Some s
                 | _ => None
                 end) tr.

(** The calls a run made outside the orchestration layer, in order. *)
Definition calls (tr : list label) : list ext_call :=
  omap (fun l => match l with
                 | LAct (Call c) => Some c
                 | _ => None
                 end) tr.

(** The number of steps of the longest run a program can make. *)
Fixpoint size {R} (p : prog R) : nat :=
  match p with
  | Done _ => 0
  | Act _ k => S (size k)
  | IfRunning kt kf => S (size kt `max` size kf)
  end.

(** A key of [DEFAULT_ADVANCED] occurs in a JSON array as a string
    element, or in a JSON string as a substring. *)
Definition mentions_default_key (data : json) : bool :=
  existsb (fun key => match py_contains key data with
                      | Ok b => b
                      | Raised _ => false
                      end) default_keys.

(** * Properties *)

(** ** Running one call alone *)

Arguments round1 : simpl never.

Arguments percent_of : simpl never.

Lemma after_nil {R} (o : option (R * DfuApi * list label)) : after [] o = o.
Proof. by destruct o as [[[? ?] ?]|]. Qed.

Lemma after_after {R} tr1 tr2 (o : option (R * DfuApi * list label)) :
  after tr1 (after tr2 o) = after (tr1 ++ tr2) o.
Proof. destruct o as [[[? ?] ?]|]; simpl; by rewrite ?app_assoc. Qed.

Lemma exec_pbind {A B} i (p : prog A) (f : A -> prog B) st :
  exec i (pbind p f) st =
  match exec i p st with
  | Some (a, st', tr) => after tr (exec i (f a) st')
  | None => None
  end.
Proof.
  revert st. induction p as [r|a k IH|kt IHt kf IHf]; intros st; simpl.
  - by rewrite after_nil.
  - destruct (do_action i a st) as [st'|]; [|done].
    rewrite IH. destruct (exec i k st') as [[[x st''] tr]|]; [|done].
    simpl. by destruct (exec i (f x) st'') as [[[? ?] ?]|].
  - destruct (_running st).
    + rewrite IHt. destruct (exec i kt st) as [[[x st''] tr]|]; [|done].
      simpl. by destruct (exec i (f x) st'') as [[[? ?] ?]|].
    + rewrite IHf. destruct (exec i kf st) as [[[x st''] tr]|]; [|done].
      simpl. by destruct (exec i (f x) st'') as [[[? ?] ?]|].
Qed.

Lemma exec_bind_ok {A B} i (p : prog (result A)) (f : A -> prog (result B)) st a st' tr :
  exec i p st = Some (Ok a, st', tr) ->
  exec i (bind_ok p f) st = after tr (exec i (f a) st').
Proof. intros H. unfold bind_ok. by rewrite exec_pbind, H. Qed.

Lemma exec_bind_raised {A B} i (p : prog (result A)) (f : A -> prog (result B)) st e st' tr :
  exec i p st = Some (Raised e, st', tr) ->
  exec i (bind_ok p f) st = Some (Raised e, st', tr).
Proof. intros H. unfold bind_ok. rewrite exec_pbind, H. simpl. by rewrite app_nil_r. Qed.

Lemma do_release i pr rn :
  do_action i Release (MkApi pr (Some i) rn) = Some (MkApi pr None rn).
Proof. unfold do_action. simpl. by rewrite bool_decide_eq_true_2. Qed.

Lemma exec_set_progress i c t m p pr rn :
  exec i (_set_progress c t m p) (MkApi pr None rn) =
  Some (Ok tt, MkApi (stored c t m p) None rn, write_steps (stored c t m p)).
Proof.
  unfold _set_progress, with_lock, stored, write_steps. simpl.
  by rewrite bool_decide_eq_true_2.
Qed.

Lemma exec_relay i events pr rn :
  exec i (relay events) (MkApi pr None rn) =
  Some (Ok tt, MkApi (relay_last events pr) None rn, relay_steps events).
Proof.
  revert pr. induction events as [|[[c t] m] events IH]; intros pr; [done|].
  cbn [relay]. unfold progress_callback.
  erewrite exec_bind_ok by apply exec_set_progress.
  by rewrite IH.
Qed.

(** *** Configuration loader *)

Lemma default_dict_dom : dom default_dict = list_to_set default_keys.
Proof. unfold default_dict, default_keys. by rewrite dom_list_to_map_L. Qed.

Lemma merge_keys_dom keys data merged merged' raised :
  merge_keys keys data merged = (merged', raised) ->
  (forall k, k ∈ keys -> k ∈ dom merged) ->
  dom merged' = dom merged.
Proof.
  revert merged. induction keys as [|key keys IH]; intros merged Hm Hin; simpl in Hm.
  - by inversion Hm.
  - destruct (py_contains key data) as [[|]|e]; try by inversion Hm.
    + destruct (py_getitem data key) as [v|e]; [|by inversion Hm].
      apply IH in Hm.
      * rewrite Hm, dom_insert_L.
        assert (key ∈ dom merged) by (apply Hin; left). set_solver.
      * intros k Hk. rewrite dom_insert_L.
        assert (k ∈ dom merged) by (apply Hin; by right). set_solver.
    + apply IH in Hm; [done|]. intros k Hk. apply Hin. by right.
Qed.

Lemma load_config_dom f cfg :
  load_config f = Ok cfg -> dom cfg = list_to_set default_keys.
Proof.
  rewrite <- default_dict_dom. unfold load_config. destruct f as [|[data|e]].
  - by intros [= <-].
  - destruct (merge_keys default_keys data default_dict) as [merged raised] eqn:Hm.
    apply merge_keys_dom in Hm.
    + destruct raised as [e|]; [|by intros [= <-]].
      destruct (isinstance e JSONDecodeError || isinstance e OSError);
        [by intros [= <-]|done].
    + intros k Hk. by rewrite default_dict_dom, elem_of_list_to_set.
  - destruct (isinstance e JSONDecodeError || isinstance e OSError);
      [by intros [= <-]|done].
Qed.

Lemma load_config_lookup f cfg key :
  load_config f = Ok cfg -> key ∈ default_keys ->
  dict_getitem cfg key = Ok (cfg !!! key).
Proof.
  intros Hl Hk. apply load_config_dom in Hl.
  assert (key ∈ dom cfg) as [v Hv]%elem_of_dom
    by (by rewrite Hl, elem_of_list_to_set).
  unfold dict_getitem. rewrite lookup_total_alt, Hv. done.
Qed.

(** *** The background job *)

Section Alone.

Variable fs : config_file.

Variables (firmware_path version target_name hw_id : string) (timeout : Z).

Variable pc : controller.

Variable i : tid.

#[local] Abbreviation run_body := (run_body fs firmware_path version target_name hw_id timeout pc).

#[local] Abbreviation run := (run fs firmware_path version target_name hw_id timeout pc).

#[local] Abbreviation run_and_capture :=
  (run_and_capture fs firmware_path version target_name hw_id timeout pc).

#[local] Abbreviation start_dfu :=
  (start_dfu (Some pc) fs firmware_path version target_name hw_id timeout).
#[local] Abbreviation resolved := (resolved firmware_path version).
#[local] Abbreviation prelude :=
  (prelude firmware_path version target_name hw_id timeout).

Ltac step_ok lem := erewrite exec_bind_ok by apply lem; cbn [after].

Ltac run_call := erewrite exec_bind_ok by (unfold call; simpl; reflexivity); cbn [after].

Lemma exec_run_body_perform cfg pr rn :
  pc_init pc hw_id "ble" = Ok tt ->
  pc_configure pc target_name timeout = Ok tt ->
  pc_set_progress_callback pc = Ok tt ->
  load_config fs = Ok cfg ->
  exec i run_body (MkApi pr None rn) =
  match snd (pc_perform_dfu pc (resolved cfg)) with
  | Ok b =>
      Some (Ok b, MkApi (if b then completed else failed) None rn,
            prelude cfg ++ relay_steps (fst (pc_perform_dfu pc (resolved cfg))) ++
            write_steps (if b then completed else failed))
  | Raised e =>
      Some (Raised e,
            MkApi (relay_last (fst (pc_perform_dfu pc (resolved cfg))) performing) None rn,
            prelude cfg ++ relay_steps (fst (pc_perform_dfu pc (resolved cfg))))
  end.
Proof.
  intros Hi Hc Hs Hl. unfold run_body. rewrite Hi, Hc, Hs, Hl.
  step_ok exec_set_progress. do 3 run_call.
  step_ok exec_set_progress. run_call.
  do 6 (erewrite exec_bind_ok
          by (unfold lift; simpl; erewrite load_config_lookup by (done || (cbv; repeat constructor));
              reflexivity); cbn [after]).
  fold (resolved cfg).
  destruct (pc_perform_dfu pc (resolved cfg)) as [events [b|e]]; cbn [fst snd].
  - erewrite exec_bind_ok; cycle 1.
    { simpl. erewrite exec_bind_ok by apply exec_relay. simpl. reflexivity. }
    cbn [after app].
    destruct b.
    + step_ok exec_set_progress. simpl. unfold prelude. simpl.
      by rewrite app_nil_r.
    + step_ok exec_set_progress. simpl. unfold prelude. simpl.
      by rewrite app_nil_r.
  - erewrite exec_bind_raised; cycle 1.
    { simpl. erewrite exec_bind_ok by apply exec_relay. simpl. reflexivity. }
    simpl. unfold prelude. simpl. by rewrite app_nil_r.
Qed.

Ltac run_raises := erewrite exec_bind_raised by (simpl; reflexivity).

(** The [try] body always comes to an end, with the lock free and
    [_running] as it found it. *)
Lemma exec_run_body_total pr rn :
  exists r pr' tr, exec i run_body (MkApi pr None rn) = Some (r, MkApi pr' None rn, tr).
Proof.
  destruct (pc_init pc hw_id "ble") as [[]|e] eqn:Hi.
  2:{ unfold run_body. rewrite Hi. step_ok exec_set_progress. run_raises. eauto. }
  destruct (pc_configure pc target_name timeout) as [[]|e] eqn:Hc.
  2:{ unfold run_body. rewrite Hi, Hc. step_ok exec_set_progress. run_call.
      run_raises. eauto. }
  destruct (pc_set_progress_callback pc) as [[]|e] eqn:Hs.
  2:{ unfold run_body. rewrite Hi, Hc, Hs. step_ok exec_set_progress.
      do 2 run_call. run_raises. eauto. }
  destruct (load_config fs) as [cfg|e] eqn:Hl.
  2:{ unfold run_body. rewrite Hi, Hc, Hs, Hl. step_ok exec_set_progress.
      do 3 run_call. step_ok exec_set_progress. run_raises. eauto. }
  rewrite (exec_run_body_perform cfg) by done.
  destruct (snd (pc_perform_dfu pc (resolved cfg))); eauto.
Qed.

Lemma exec_reset pr rn :
  exec i (with_lock (Act (SetRunning false) (ret tt))) (MkApi pr None rn) =
  Some (Ok tt, MkApi pr None false, reset_steps).
Proof. unfold with_lock. simpl. by rewrite bool_decide_eq_true_2. Qed.

Lemma exec_handler e pr rn :
  exec i (_set_progress 0 0 ("Error: " +:+ exc_text e) (Some 0%Q) ;;; @raise bool e)
       (MkApi pr None rn) =
  Some (Raised e, MkApi (errored e) None rn, write_steps (errored e)).
Proof. erewrite exec_bind_ok by apply exec_set_progress. done. Qed.

Lemma exec_run_of_body pr rn r pr' tr :
  exec i run_body (MkApi pr None rn) = Some (r, MkApi pr' None rn, tr) ->
  exec i run (MkApi pr None rn) =
  Some (r, MkApi (settled r pr') None false, tr ++ handler_steps r ++ reset_steps).
Proof.
  intros Hb. unfold run, try_finally, try_except. rewrite !exec_pbind, Hb.
  destruct r as [b|e]; cbn [settled handler_steps].
  - cbn [exec after]. rewrite app_nil_r, exec_pbind, exec_reset. done.
  - destruct (isinstance e Exception).
    + rewrite exec_handler. cbn [after].
      rewrite exec_pbind, exec_reset. cbn [after exec]. by rewrite app_nil_r, app_assoc.
    + cbn [exec after]. rewrite app_nil_r, exec_pbind, exec_reset. done.
Qed.

(** The job always comes to an end, with the lock free and [_running]
    false. *)
Lemma exec_run_total pr rn :
  exists r pr' tr, exec i run (MkApi pr None rn) = Some (r, MkApi pr' None false, tr).
Proof.
  destruct (exec_run_body_total pr rn) as (r & pr' & tr & Hb).
  rewrite (exec_run_of_body _ _ _ _ _ Hb). eauto.
Qed.

Lemma exec_admission pr rn :
  exec i admission (MkApi pr None rn) =
  Some (if rn then Raised already_running else Ok tt,
        if rn then MkApi pr None true else MkApi starting None true,
        if rn then rejected_steps else admission_steps).
Proof.
  unfold admission, with_lock. destruct rn; simpl; by rewrite bool_decide_eq_true_2.
Qed.

Lemma exec_run_and_capture st r st' tr :
  exec i run st = Some (r, st', tr) ->
  exec i (run_and_capture []) st = Some (captured r, st', tr).
Proof.
  intros Hr. unfold run_and_capture. rewrite exec_pbind, Hr.
  destruct r as [b|e]; simpl; [by rewrite app_nil_r|].
  destruct (isinstance e Exception); simpl; by rewrite app_nil_r.
Qed.

Lemma exec_start_dfu_rejected pr :
  exec i start_dfu (MkApi pr None true) =
  Some (Raised already_running, MkApi pr None true, rejected_steps).
Proof.
  unfold start_dfu. erewrite exec_bind_raised; [done|]. by rewrite exec_admission.
Qed.

Lemma exec_start_dfu_admitted pr r st' tr :
  exec i run (MkApi starting None true) = Some (r, st', tr) ->
  exec i start_dfu (MkApi pr None false) =
  Some (delivered r, st',
        admission_steps ++ LAct (Call CallThreadStart) :: tr ++ [LAct (Call CallThreadJoin)]).
Proof.
  intros Hr. unfold start_dfu.
  erewrite exec_bind_ok by (by rewrite exec_admission).
  cbn [exec do_action]. rewrite exec_pbind, (exec_run_and_capture _ _ _ _ Hr).
  destruct r as [b|e]; simpl; [done|].
  destruct (isinstance e Exception) eqn:He; simpl; done.
Qed.

End Alone.

(** ** Properties of a single call *)

(** C4. With the controller class missing ([PlatformController is None]),
    [start_dfu] is the raise of the "not installed" [RuntimeError] and
    nothing else: run from any state of the object, even one whose lock is
    taken, it takes no step, so [_running] and [_progress] are as before. *)
Theorem start_dfu_unavailable fs firmware_path version target_name hw_id timeout i st :
  start_dfu None fs firmware_path version target_name hw_id timeout
    = raise unavailable
  /\ exc_type unavailable = RuntimeError
  /\ tstep i (start_dfu None fs firmware_path version target_name hw_id timeout) st
    = None
  /\ exec i (start_dfu None fs firmware_path version target_name hw_id timeout) st
    = Some (Raised unavailable, st, []).
Proof. done. Qed.

(** C1. With the controller available, the admission block raises
    "DFU is already running." exactly when [_running] is set when it is
    read.  A rejected call takes the lock, reads the flag and releases the
    lock, writing nothing: the object is as before.  An admitted call
    reads the flag and sets it between one acquire and the matching
    release, and only then goes on to the job. *)
Theorem start_dfu_admission_control
    pc fs firmware_path version target_name hw_id timeout i pr rn :
  (exists r st' tr,
     exec i admission (MkApi pr None rn) = Some (r, st', tr)
     /\ (r = Raised already_running <-> rn = true)
     /\ (r = Ok tt <-> rn = false)
     /\ _running st' = true)
  /\ exec i (start_dfu (Some pc) fs firmware_path version target_name hw_id timeout)
          (MkApi pr None true)
     = Some (Raised already_running, MkApi pr None true,
             [LAct Acquire; LCheck true; LAct Release])
  /\ (exists r st' tr,
     exec i (start_dfu (Some pc) fs firmware_path version target_name hw_id timeout)
          (MkApi pr None false)
     = Some (r, st',
             [LAct Acquire; LCheck false; LAct (SetRunning true);
              LAct (SetProgress starting); LAct Release] ++ tr)).
Proof.
  split; [|split].
  - rewrite exec_admission. do 3 eexists. split; [done|].
    destruct rn; simpl; repeat split; intros; done.
  - apply exec_start_dfu_rejected.
  - destruct (exec_run_total fs firmware_path version target_name hw_id timeout pc i
                starting true) as (r & pr' & tr & Hr).
    erewrite exec_start_dfu_admitted by done. eauto.
Qed.

(** C10. Admission writes the "Starting…" snapshot (0, 0, 0.0) in the
    critical section that sets [_running], whatever the snapshot was
    before: the job starts from that snapshot.  A rejected call and a call
    with the controller missing leave the previous snapshot in place. *)
Theorem start_dfu_starting_snapshot
    pc fs firmware_path version target_name hw_id timeout i pr :
  exec i admission (MkApi pr None false)
    = Some (Ok tt,
            MkApi {| current := 0; total := 0; message := "Starting…";
                     percentage := 0 |} None true,
            [LAct Acquire; LCheck false; LAct (SetRunning true);
             LAct (SetProgress {| current := 0; total := 0; message := "Starting…";
                                  percentage := 0 |});
             LAct Release])
  /\ (exists r st' tr,
        exec i (run fs firmware_path version target_name hw_id timeout pc)
             (MkApi starting None true) = Some (r, st', tr)
        /\ exec i (start_dfu (Some pc) fs firmware_path version target_name hw_id timeout)
                (MkApi pr None false)
           = Some (delivered r, st',
                   admission_steps ++
                   LAct (Call CallThreadStart) :: tr ++ [LAct (Call CallThreadJoin)]))
  /\ (exists r st' tr,
        exec i (start_dfu (Some pc) fs firmware_path version target_name hw_id timeout)
             (MkApi pr None true) = Some (r, st', tr)
        /\ _progress st' = pr)
  /\ (exists r st' tr,
        exec i (start_dfu None fs firmware_path version target_name hw_id timeout)
             (MkApi pr None false) = Some (r, st', tr)
        /\ _progress st' = pr).
Proof.
  repeat split.
  - by rewrite exec_admission.
  - destruct (exec_run_total fs firmware_path version target_name hw_id timeout pc i
                starting true) as (r & pr' & tr & Hr).
    exists r, (MkApi pr' None false), tr. split; [done|].
    by apply exec_start_dfu_admitted.
  - rewrite exec_start_dfu_rejected. eauto.
  - simpl. eauto.
Qed.



(** C7. When every step before it returns and [perform_dfu] returns
    [True], an admitted call returns [True] and leaves the snapshot
    (100, 100, "DFU completed successfully.", 100.0); when it returns
    [False], the call returns [False], raising nothing, and leaves
    (0, 0, "DFU failed.", 0.0).  Either way [_running] is false again. *)
Theorem start_dfu_outcome_snapshot
    pc fs firmware_path version target_name hw_id timeout i pr cfg b :
  pc_init pc hw_id "ble" = Ok tt ->
  pc_configure pc target_name timeout = Ok tt ->
  pc_set_progress_callback pc = Ok tt ->
  load_config fs = Ok cfg ->
  snd (pc_perform_dfu pc (resolved firmware_path version cfg)) = Ok b ->
  exists tr,
    exec i (start_dfu (Some pc) fs firmware_path version target_name hw_id timeout)
         (MkApi pr None false)
    = Some (Ok b,
            MkApi (if b
                   then {| current := 100; total := 100;
                           message := "DFU completed successfully.";
                           percentage := 100 |}
                   else {| current := 0; total := 0; message := "DFU failed.";
                           percentage := 0 |})
                  None false,
            tr).
Proof.
  intros Hi Hc Hs Hl Hp.
  pose proof (exec_run_body_perform fs firmware_path version target_name hw_id timeout
                pc i cfg starting true Hi Hc Hs Hl) as Hb.
  rewrite Hp in Hb. apply exec_run_of_body in Hb.
  apply (exec_start_dfu_admitted _ _ _ _ _ _ _ _ pr) in Hb.
  rewrite Hb. destruct b; eexists; reflexivity.
Qed.

Lemma start_dfu_outcome_snapshot_witness :
  exists tr,
    exec T1 (start_dfu (Some failing) NoFile "fw.bin" "0.2.12" "oura_" "BEM_04" 10)
         init_api
    = Some (Ok false,
            MkApi {| current := 0; total := 0; message := "DFU failed.";
                     percentage := 0 |} None false,
            tr).
Proof.
  exact (start_dfu_outcome_snapshot failing NoFile "fw.bin" "0.2.12" "oura_" "BEM_04"
           10 T1 (_progress init_api) default_dict false
           eq_refl eq_refl eq_refl eq_refl eq_refl).
Defined.



(** C9. When the job returns, or raises an exception that is an
    [Exception], [result_holder] has an element after the join, and
    [start_dfu] ends exactly as the job did: it returns the job's boolean
    or raises the job's exception, never "DFU thread did not return.". *)
Theorem start_dfu_result_captured
    pc fs firmware_path version target_name hw_id timeout i pr r st' tr :
  exec i (run fs firmware_path version target_name hw_id timeout pc)
       (MkApi starting None true) = Some (r, st', tr) ->
  match r with Ok _ => True | Raised e => isinstance e Exception = true end ->
  (exists first others,
     exec i (run_and_capture fs firmware_path version target_name hw_id timeout pc [])
          (MkApi starting None true) = Some (first :: others, st', tr)
     /\ first = match r with Ok b => HeldBool b | Raised e => HeldExc e end)
  /\ exec i (start_dfu (Some pc) fs firmware_path version target_name hw_id timeout)
          (MkApi pr None false)
     = Some (r, st',
             admission_steps ++
             LAct (Call CallThreadStart) :: tr ++ [LAct (Call CallThreadJoin)]).
Proof.
  intros Hr Hexc. split.
  - rewrite (exec_run_and_capture _ _ _ _ _ _ _ _ _ _ _ _ Hr).
    destruct r as [b|e]; simpl; [eauto|]. rewrite Hexc. eauto.
  - rewrite (exec_start_dfu_admitted _ _ _ _ _ _ _ _ pr _ _ _ Hr).
    destruct r as [b|e]; simpl; [done|]. by rewrite Hexc.
Qed.

Lemma start_dfu_result_captured_witness :
  exists st' tr,
    exec T1 (start_dfu (Some (raising link_lost)) NoFile "fw.bin" "0.2.12" "oura_"
               "BEM_04" 10) init_api
    = Some (Raised link_lost, st',
            admission_steps ++
            LAct (Call CallThreadStart) :: tr ++ [LAct (Call CallThreadJoin)]).
Proof.
  eexists _, _.
  refine (proj2 (start_dfu_result_captured (raising link_lost) NoFile "fw.bin" "0.2.12"
                   "oura_" "BEM_04" 10 T1 (_progress init_api) (Raised link_lost)
                   _ _ _ _)).
  - vm_compute. reflexivity.
  - reflexivity.
Defined.

(** The hypothesis of C9 is needed: a job ended by [KeyboardInterrupt]
    leaves [result_holder] empty, and the last line of [start_dfu] runs. *)
Example did_not_return_reached :
  exists st' tr,
    exec T1 (start_dfu (Some (raising (Exc KeyboardInterrupt ""))) NoFile "fw.bin"
               "0.2.12" "oura_" "BEM_04" 10) init_api
    = Some (Raised did_not_return, st', tr)
    /\ _running st' = false.
Proof. vm_compute. eauto. Qed.

(** C8 as stated fails.  In a run where everything succeeds the
    configuration is resolved after "performing update" is emitted, just
    before [perform_dfu], not second; and in a run whose controller
    cannot be constructed the later steps are not taken at all. *)
Lemma job_order_not_as_specified :
  (exists r st' tr,
     exec T1 (run NoFile "fw.bin" "0.2.12" "oura_" "BEM_04" 10 quiet)
          (MkApi starting None true) = Some (r, st', tr)
     /\ job_steps tr
        = [EmitProgress; Construct; Configure; RegisterCallback; EmitProgress;
           ResolveConfig; PerformUpdate]
     /\ filter (fun k => k <> Construct) (job_steps tr) <> order_in_spec)
  /\ (exists r st' tr,
     exec T1 (run NoFile "fw.bin" "0.2.12" "oura_" "BEM_04" 10
                {| pc_init := fun _ _ => Raised link_lost;
                   pc_configure := fun _ _ => Ok tt;
                   pc_set_progress_callback := Ok tt;
                   pc_perform_dfu := fun _ => ([], Ok true) |})
          (MkApi starting None true) = Some (r, st', tr)
     /\ PerformUpdate ∉ omap step_kind_of tr).
Proof.
  split.
  - eexists _, _, _. split; [vm_compute; reflexivity|]. split; [reflexivity|].
    vm_compute. discriminate.
  - eexists _, _, _. split; [vm_compute; reflexivity|].
    vm_compute. intros H. repeat (inversion H as [|? ? ? H']; clear H; rename H' into H).
Qed.

(** C8, amended.  When no step before it raises, the job takes its steps
    in this order: store the "Connecting…" snapshot (0, 0); construct the
    controller for [hw_id] with client type "ble"; configure it with
    target name and timeout; register the progress callback; store the
    "Performing DFU…" snapshot; load the configuration; call
    [perform_dfu] with the firmware path, the version and the six loaded
    settings. *)
Theorem job_order
    pc fs firmware_path version target_name hw_id timeout i pr rn cfg :
  pc_init pc hw_id "ble" = Ok tt ->
  pc_configure pc target_name timeout = Ok tt ->
  pc_set_progress_callback pc = Ok tt ->
  load_config fs = Ok cfg ->
  exists r st' rest,
    exec i (run fs firmware_path version target_name hw_id timeout pc) (MkApi pr None rn)
    = Some (r, st',
            [LAct Acquire;
             LAct (SetProgress {| current := 0; total := 0; message := "Connecting…";
                                  percentage := 0 |});
             LAct Release;
             LAct (Call (CallInit hw_id "ble"));
             LAct (Call (CallConfigure target_name timeout));
             LAct (Call CallSetProgressCallback);
             LAct Acquire;
             LAct (SetProgress {| current := 0; total := 0;
                                  message := "Performing DFU…"; percentage := 0 |});
             LAct Release;
             LAct (Call CallLoadConfig);
             LAct (Call (CallPerformDfu
                           {| arg_firmware_path := firmware_path;
                              arg_app_id := cfg !!! "app_id";
                              arg_version := version;
                              arg_start_address := cfg !!! "start_address";
                              arg_block_size := cfg !!! "block_size";
                              arg_ring_type := cfg !!! "ring_type";
                              arg_force_flags := cfg !!! "force_flags";
                              arg_reboot_wait := cfg !!! "reboot_wait" |}))]
            ++ rest)
    /\ job_steps ([LAct Acquire;
             LAct (SetProgress {| current := 0; total := 0; message := "Connecting…";
                                  percentage := 0 |});
             LAct Release;
             LAct (Call (CallInit hw_id "ble"));
             LAct (Call (CallConfigure target_name timeout));
             LAct (Call CallSetProgressCallback);
             LAct Acquire;
             LAct (SetProgress {| current := 0; total := 0;
                                  message := "Performing DFU…"; percentage := 0 |});
             LAct Release;
             LAct (Call CallLoadConfig);
             LAct (Call (CallPerformDfu (resolved firmware_path version cfg)))]
            ++ rest)
       = [EmitProgress; Construct; Configure; RegisterCallback; EmitProgress;
          ResolveConfig; PerformUpdate].
Proof.
  intros Hi Hc Hs Hl.
  pose proof (exec_run_body_perform fs firmware_path version target_name hw_id timeout
                pc i cfg pr rn Hi Hc Hs Hl) as Hb.
  destruct (snd (pc_perform_dfu pc (resolved firmware_path version cfg))) as [b|e];
    apply exec_run_of_body in Hb; rewrite Hb; unfold prelude;
    rewrite <- !app_assoc; eexists _, _, _; (split; [reflexivity|reflexivity]).
Qed.

Lemma job_order_witness :
  exists r st' rest,
    exec T1 (run NoFile "fw.bin" "0.2.12" "oura_" "BEM_04" 10 quiet) init_api
    = Some (r, st',
            [LAct Acquire;
             LAct (SetProgress {| current := 0; total := 0; message := "Connecting…";
                                  percentage := 0 |});
             LAct Release;
             LAct (Call (CallInit "BEM_04" "ble"));
             LAct (Call (CallConfigure "oura_" 10));
             LAct (Call CallSetProgressCallback);
             LAct Acquire;
             LAct (SetProgress {| current := 0; total := 0;
                                  message := "Performing DFU…"; percentage := 0 |});
             LAct Release;
             LAct (Call CallLoadConfig);
             LAct (Call (CallPerformDfu
                           {| arg_firmware_path := "fw.bin";
                              arg_app_id := JInt 1;
                              arg_version := "0.2.12";
                              arg_start_address := JInt 0;
                              arg_block_size := JInt 512;
                              arg_ring_type := JInt 8;
                              arg_force_flags := JInt 0;
                              arg_reboot_wait := JInt 10 |}))]
            ++ rest).
Proof.
  destruct (job_order quiet NoFile "fw.bin" "0.2.12" "oura_" "BEM_04" 10 T1
              (_progress init_api) false default_dict
              eq_refl eq_refl eq_refl eq_refl) as (r & st' & rest & Hrun & _).
  exists r, st', rest. exact Hrun.
Defined.

(** *** The configuration loader *)

Lemma load_config_absent : load_config NoFile = Ok default_dict.
Proof. done. Qed.

(** A failure that the [except] clause names gives the defaults. *)
Lemma load_config_caught e :
  isinstance e JSONDecodeError || isinstance e OSError = true ->
  load_config (FileLoads (Raised e)) = Ok default_dict.
Proof. intros H. unfold load_config. by rewrite H. Qed.

Lemma merge_keys_object keys m merged :
  merge_keys keys (JObj m) merged = (foldl (override m) merged keys, None).
Proof.
  revert merged. induction keys as [|key keys IH]; intros merged; [done|].
  simpl. unfold override at 2. destruct (m !! key) as [v|] eqn:Hk.
  - rewrite bool_decide_eq_true_2 by eauto. apply IH.
  - rewrite bool_decide_eq_false_2 by (by intros [? ?]). apply IH.
Qed.

Lemma foldl_override_lookup keys m merged (k : string) :
  foldl (override m) merged keys !! k =
  if bool_decide (k ∈ keys)
  then match m !! k with Some v => Some v | None => merged !! k end
  else merged !! k.
Proof.
  revert merged. induction keys as [|key keys IH]; intros merged; [done|].
  simpl. rewrite IH. unfold override.
  destruct (decide (k = key)) as [->|Hne].
  - rewrite (bool_decide_eq_true_2 (key ∈ key :: keys)) by left.
    destruct (m !! key) as [v|] eqn:Hk.
    + rewrite lookup_insert_eq. by destruct (bool_decide (key ∈ keys)).
    + by destruct (bool_decide (key ∈ keys)).
  - assert (bool_decide (k ∈ key :: keys) = bool_decide (k ∈ keys)) as ->.
    { apply bool_decide_ext. rewrite elem_of_cons. naive_solver. }
    destruct (m !! key) as [v|]; [|done].
    by rewrite lookup_insert_ne.
Qed.

(** X2. For a JSON object [load_config] never raises and returns: each
    default key, with the persisted value (of whatever JSON type) if the
    object has the key and the default if not; and no other key, so keys
    of the file that are not defaults are ignored. *)
Lemma load_config_object m :
  exists cfg,
    load_config (FileLoads (Ok (JObj m))) = Ok cfg
    /\ forall k : string,
        cfg !! k = if bool_decide (k ∈ default_keys)
                   then match m !! k with
                        | Some v => Some v
                        | None => default_dict !! k
                        end
                   else None.
Proof.
  unfold load_config. rewrite merge_keys_object. eexists. split; [done|].
  intros k. rewrite foldl_override_lookup. case_bool_decide as Hk; [done|].
  apply not_elem_of_dom. by rewrite default_dict_dom, elem_of_list_to_set.
Qed.

(** C5: the code does not do what the claim says for every document.
    When [config.json] holds the JSON text [null], [key in data] raises a
    [TypeError], which the [except] clause does not name, and
    [load_config] raises it instead of returning the defaults; the same
    happens with a file that is not valid UTF-8 ([UnicodeDecodeError]). *)
Theorem load_config_raises :
  load_config (FileLoads (Ok JNull))
    = Raised (Exc TypeError "argument of type 'NoneType' is not iterable")
  /\ forall text,
      load_config (FileLoads (Raised (Exc UnicodeDecodeError text)))
      = Raised (Exc UnicodeDecodeError text).
Proof. split; [reflexivity|]. intros text. reflexivity. Qed.

(** ** Properties of two calls at once *)

Lemma count_snoc f i hist j l :
  count f i (hist ++ [(j, l)]) =
  (count f i hist + if bool_decide (j = i) && f l then 1 else 0)%nat.
Proof.
  induction hist as [|[j' l'] hist IH]; simpl; [lia|]. rewrite IH. lia.
Qed.

Lemma mode_of_snoc i hist j l :
  mode_of i (hist ++ [(j, l)]) =
  if bool_decide (j = i)
  then (next_phase l (mode_of i hist).1, next_hold l (mode_of i hist).2)
  else mode_of i hist.
Proof. unfold mode_of. by rewrite foldl_snoc. Qed.

Lemma disc_tstep {R} i (p p' : prog R) st st' l ph h post :
  disc ph h p post -> tstep i p st = Some (l, p', st') ->
  disc (next_phase l ph) (next_hold l h) p' post.
Proof.
  destruct p as [r|a k|kt kf]; simpl; [done| |].
  - destruct (do_action i a st) as [st''|]; [|done]. intros Hd [= <- <- <-].
    destruct a as [| |[]| |]; simpl in *; naive_solver.
  - intros (-> & -> & Ht & Hf) [= <- <- <-]. by destruct (_running st).
Qed.

Lemma other_other i : other (other i) = i.
Proof. by destruct i. Qed.

Lemma other_ne i : other i <> i.
Proof. by destruct i. Qed.

Lemma tid_cases i j : j = i \/ j = other i.
Proof. destruct i, j; auto. Qed.

Lemma cstep_inv i s s' :
  cstep i s = Some s' ->
  exists l p' st',
    tstep i (thread s i) (shared s) = Some (l, p', st')
    /\ shared s' = st'
    /\ history s' = history s ++ [(i, l)]
    /\ thread s' i = p'
    /\ thread s' (other i) = thread s (other i).
Proof.
  unfold cstep. destruct (tstep i (thread s i) (shared s)) as [[[l p'] st']|]; [|done].
  intros [= <-]. exists l, p', st'. by destruct i.
Qed.

Lemma mode_of_step_self i hist l :
  mode_of i (hist ++ [(i, l)]) =
  (next_phase l (mode_of i hist).1, next_hold l (mode_of i hist).2).
Proof. by rewrite mode_of_snoc, bool_decide_eq_true_2. Qed.

Lemma mode_of_step_other i hist l :
  mode_of (other i) (hist ++ [(i, l)]) = mode_of (other i) hist.
Proof.
  rewrite mode_of_snoc, bool_decide_eq_false_2; [done|]. by destruct i.
Qed.

Lemma count_step_self f i hist l :
  count f i (hist ++ [(i, l)]) = (count f i hist + if f l then 1 else 0)%nat.
Proof. by rewrite count_snoc, bool_decide_eq_true_2. Qed.

Lemma count_step_other f i hist l :
  count f (other i) (hist ++ [(i, l)]) = count f (other i) hist.
Proof.
  rewrite count_snoc, bool_decide_eq_false_2; [simpl; lia|]. by destruct i.
Qed.

Lemma exists_tid i (P : tid -> Prop) : (exists j, P j) <-> P i \/ P (other i).
Proof.
  split.
  - intros [j Hj]. destruct (tid_cases i j) as [-> | ->]; auto.
  - intros [?|?]; eauto.
Qed.

Ltac sf_fields i Hh Hsh Hme Hot Hmi Hmo :=
  split;
  [ intros j; destruct (tid_cases i j) as [-> | ->]
  | intros j; destruct (tid_cases i j) as [-> | ->]
  | rewrite (exists_tid i)
  | intros j; destruct (tid_cases i j) as [-> | ->]
  | intros j; destruct (tid_cases i j) as [-> | ->]
  | intros j; destruct (tid_cases i j) as [-> | ->]
  | intros j; destruct (tid_cases i j) as [-> | ->] ];
  rewrite ?other_other;
  unfold admissions, resets, rejections;
  rewrite ?Hh, ?Hsh, ?Hme, ?Hot, ?mode_of_step_self, ?mode_of_step_other,
    ?count_step_self, ?count_step_other, ?Hmi, ?Hmo;
  cbn [fst snd next_phase next_hold _running _progress_lock is_admit is_reset is_reject];
  rewrite ?Nat.add_0_r.

Ltac sf_close :=
  try done;
  try (simplify_eq; done);
  repeat match goal with
         | H : disc _ _ _ _ |- _ => clear H
         | H : thread _ _ = _ |- _ => clear H
         | H : shared _ = _ |- _ => clear H
         | H : history _ = _ |- _ => clear H
         | H : mode_of _ _ = _ |- _ => clear H
         end;
  repeat match goal with
         | x : phase |- _ => destruct x
         | x : bool |- _ => destruct x
         end;
  cbn [fst snd] in *;
  try (intuition (simplify_eq; try done; try congruence; eauto));
  try (by repeat match goal with H : count _ _ _ = _ |- _ => rewrite H end).

Lemma single_flight_step i s s' :
  single_flight s -> cstep i s = Some s' -> single_flight s'.
Proof.
  intros [Hd Hl Hf H1 Hc Hr Ht] (l & p' & st' & Hstep & Hsh & Hh & Hme & Hot)%cstep_inv.
  pose proof (Hd i) as Hdi. pose proof (Hd (other i)) as Hdo.
  pose proof (Hl i) as Hli. pose proof (Hl (other i)) as Hlo.
  pose proof (H1 i) as H1i. pose proof (H1 (other i)) as H1o.
  pose proof (Hc i) as Hci. pose proof (Hc (other i)) as Hco.
  pose proof (Hr i) as Hri. pose proof (Hr (other i)) as Hro.
  pose proof (Ht i) as Hti. pose proof (Ht (other i)) as Hto.
  rewrite (exists_tid i) in Hf.
  rewrite other_other in *.
  clear Hd Hl H1 Hc Hr Ht.
  pose proof (disc_tstep _ _ _ _ _ _ _ _ _ Hdi Hstep) as Hdi'.
  unfold admissions, resets, rejections in *.
  destruct (mode_of i (history s)) as [ph h] eqn:Hmi.
  destruct (mode_of (other i) (history s)) as [pho ho] eqn:Hmo.
  assert (other i <> i) as Hne by apply other_ne.
  cbn [fst snd] in *.
  destruct (shared s) as [pr lk rn]. cbn [_running _progress_lock] in *.
  destruct (thread s i) as [r|a k|kt kf]; simpl in Hstep; [done| |].
  - destruct a as [| |b|sn|c]; simpl in Hstep, Hdi.
    + destruct lk as [j|]; [done|]. injection Hstep as <- <- <-.
      destruct Hdi as [-> Hdi].
      sf_fields i Hh Hsh Hme Hot Hmi Hmo.
      all: sf_close.
    + case_bool_decide as Hlk; [|done]. injection Hstep as <- <- <-.
      destruct Hdi as (-> & Hph & Hdi). subst lk.
      sf_fields i Hh Hsh Hme Hot Hmi Hmo.
      all: sf_close.
    + injection Hstep as <- <- <-.
      destruct b; simpl in Hdi; destruct Hdi as (-> & -> & Hdi).
      all: sf_fields i Hh Hsh Hme Hot Hmi Hmo.
      all: sf_close.
    + injection Hstep as <- <- <-.
      destruct Hdi as (-> & Hdi).
      sf_fields i Hh Hsh Hme Hot Hmi Hmo.
      all: sf_close.
    + injection Hstep as <- <- <-.
      sf_fields i Hh Hsh Hme Hot Hmi Hmo.
      all: sf_close.
  - injection Hstep as <- <- <-.
    destruct Hdi as (-> & -> & Hdt & Hdf).
    sf_fields i Hh Hsh Hme Hot Hmi Hmo.
    all: destruct rn; cbn [next_phase is_admit is_reset is_reject] in *; rewrite ?Nat.add_0_r.
    all: sf_close.
Qed.

Lemma disc_mono {R} ph h (p : prog R) (P Q : R -> phase -> bool -> Prop) :
  (forall r ph h, P r ph h -> Q r ph h) -> disc ph h p P -> disc ph h p Q.
Proof.
  intros HPQ. revert ph h.
  induction p as [r|a k IH|kt IHt kf IHf]; intros ph h; simpl; [auto| |].
  - destruct a as [| |[]| |]; naive_solver.
  - naive_solver.
Qed.

Lemma disc_pbind {A B} ph h (p : prog A) (f : A -> prog B) post :
  disc ph h p (fun a ph' h' => disc ph' h' (f a) post) ->
  disc ph h (pbind p f) post.
Proof.
  revert ph h. induction p as [r|a k IH|kt IHt kf IHf]; intros ph h; simpl; [done| |].
  - destruct a as [| |[]| |]; naive_solver.
  - naive_solver.
Qed.

Lemma disc_seq {A B} ph (p : prog (result A)) (f : A -> prog (result B)) post :
  keeps ph p ->
  (forall a, disc ph false (f a) post) ->
  (forall e, post (Raised e) ph false) ->
  disc ph false (bind_ok p f) post.
Proof.
  intros Hp Hf He. apply disc_pbind. revert Hp. apply disc_mono.
  intros [a|e] ph' h' [-> ->]; simpl; auto.
Qed.

Lemma keeps_set_progress ph c t m p : ph <> Checked -> keeps ph (_set_progress c t m p).
Proof. intros Hph. unfold keeps, _set_progress, with_lock. simpl. by repeat split. Qed.

Lemma keeps_call {A} ph c (o : result A) : keeps ph (call c o).
Proof. by unfold keeps, call. Qed.

Lemma keeps_lift {A} ph (o : result A) : keeps ph (lift o).
Proof. by unfold keeps, lift. Qed.

Lemma keeps_relay ph events : ph <> Checked -> keeps ph (relay events).
Proof.
  intros Hph. induction events as [|[[c t] m] events IH]; [by unfold keeps|].
  cbn [relay]. apply disc_seq; [by apply keeps_set_progress|done|done].
Qed.

Lemma keeps_run_body fs fw ver tgt hw tmo pc :
  keeps Owner (run_body fs fw ver tgt hw tmo pc).
Proof.
  unfold run_body.
  repeat first
    [ apply disc_seq; [first [ by apply keeps_set_progress
                              | apply keeps_call
                              | apply keeps_lift ]
                      | intros ? | by intros ]
    ].
  apply disc_seq; [| |by intros].
  - unfold keeps. cbn [disc]. apply disc_seq; [by apply keeps_relay|intros ?|by intros].
    apply keeps_lift.
  - intros [|]; (apply disc_seq; [by apply keeps_set_progress|by intros|by intros]).
Qed.

Lemma disc_run fs fw ver tgt hw tmo pc :
  disc Owner false (run fs fw ver tgt hw tmo pc)
       (fun _ ph h => ph = Finished /\ h = false).
Proof.
  unfold run, try_finally, try_except. do 2 apply disc_pbind.
  generalize (keeps_run_body fs fw ver tgt hw tmo pc). apply disc_mono.
  intros [b|e] ph h [-> ->].
  - simpl. by repeat split.
  - destruct (isinstance e Exception).
    + apply disc_seq; [by apply keeps_set_progress| |].
      * intros _. simpl. by repeat split.
      * intros e'. simpl. by repeat split.
    + simpl. by repeat split.
Qed.

Lemma disc_admission :
  disc Fresh false admission
       (fun r ph h => h = false /\ ((ph = Rejected /\ r = Raised already_running) \/
                                    (ph = Owner /\ r = Ok tt))).
Proof. unfold admission, with_lock, raise, ret. simpl. repeat split; auto. Qed.

Lemma disc_call_step {R} ph h c (k : prog R) post :
  disc ph h k post -> disc ph h (Act (Call c) k) post.
Proof. done. Qed.

Lemma disc_start_dfu pc fs fw ver tgt hw tmo :
  disc Fresh false (start_dfu (Some pc) fs fw ver tgt hw tmo) call_end.
Proof.
  unfold start_dfu, bind_ok. apply disc_pbind.
  generalize disc_admission. apply disc_mono.
  intros r ph h [-> [[-> ->]|[-> ->]]].
  - split; [done|]. by left.
  - apply disc_call_step, disc_pbind. unfold run_and_capture. apply disc_pbind.
    generalize (disc_run fs fw ver tgt hw tmo pc). apply disc_mono.
    intros [b|e] ph h [-> ->].
    + split; [done|]. by right.
    + destruct (isinstance e Exception); (split; [done|]; by right).
Qed.

Lemma single_flight_two_calls pc1 pc2 fs1 fs2 fw1 ver1 tgt1 hw1 tmo1 fw2 ver2 tgt2 hw2 tmo2 :
  single_flight (two_calls pc1 pc2 fs1 fs2 fw1 ver1 tgt1 hw1 tmo1 fw2 ver2 tgt2 hw2 tmo2).
Proof.
  split; simpl.
  - intros []; apply disc_start_dfu.
  - intros []; done.
  - split; [done|]. by intros [[] ?].
  - by intros [].
  - by intros [].
  - by intros [].
  - by intros [].
Qed.

Lemma single_flight_reachable s0 s :
  single_flight s0 -> reachable s0 s -> single_flight s.
Proof.
  intros H0. induction 1 as [|s i s' _ IH Hstep]; [done|].
  by eapply single_flight_step.
Qed.



(** The same two calls, scheduled so that the second reads the flag while
    the first job runs: the second is turned away. *)
Example second_call_rejected :
  exists s,
    run_schedule (replicate 5 T1 ++ replicate 3 T2)
      (two_calls quiet quiet NoFile NoFile
         "fw.bin" "0.2.12" "oura_" "BEM_04" 10
         "fw.bin" "0.2.12" "oura_" "BEM_04" 10) = Some s
    /\ thr2 s = Done (Raised already_running)
    /\ _running (shared s) = true
    /\ admissions T1 (history s) = 1%nat /\ admissions T2 (history s) = 0%nat.
Proof. eexists. vm_compute. repeat split; reflexivity. Qed.



(** ** More on the configuration loader *)

(** X1. Whenever [load_config] returns a dict, whatever [config.json]
    held, the dict has exactly the six keys of [DEFAULT_ADVANCED]: none is
    missing and no key of the file is added. *)
Theorem load_config_keys f cfg (k : string) :
  load_config f = Ok cfg ->
  is_Some (cfg !! k) <->
  k ∈ ["app_id"; "start_address"; "block_size"; "ring_type"; "force_flags";
       "reboot_wait"].
Proof.
  intros Hl. apply load_config_dom in Hl.
  rewrite <- elem_of_dom, Hl, elem_of_list_to_set. done.
Qed.

Lemma load_config_keys_witness :
  is_Some (default_dict !! "block_size") <->
  "block_size" ∈ ["app_id"; "start_address"; "block_size"; "ring_type"; "force_flags";
                  "reboot_wait"].
Proof. exact (load_config_keys NoFile default_dict "block_size" eq_refl). Defined.




Lemma merge_keys_no_object keys data merged e0 :
  (forall key, exists b, py_contains key data = Ok b) ->
  (forall key, py_getitem data key = Raised e0) ->
  merge_keys keys data merged =
  (merged,
   if existsb (fun key => match py_contains key data with
                          | Ok b => b
                          | Raised _ => false
                          end) keys
   then Some e0 else None).
Proof.
  intros Hc Hg. induction keys as [|key keys IH]; [done|].
  simpl. destruct (Hc key) as [b ->]. destruct b; simpl.
  - by rewrite Hg.
  - apply IH.
Qed.

(** X5. A document that is a JSON array or a JSON string is taken as an
    empty configuration (the defaults are returned) unless it mentions a
    default key, as an array element or as a substring; if it does,
    [data[key]] raises a [TypeError]. *)
Theorem load_config_array_or_string data :
  (exists l, data = JArr l) \/ (exists s, data = JStr s) ->
  if mentions_default_key data
  then exists e, load_config (FileLoads (Ok data)) = Raised e /\ exc_type e = TypeError
  else load_config (FileLoads (Ok data)) = Ok default_dict.
Proof.
  intros [[l ->]|[s ->]]; unfold load_config, mentions_default_key.
  - erewrite merge_keys_no_object by (intros; simpl; eauto).
    destruct (existsb _ default_keys); [eexists; split; [reflexivity|done]|done].
  - erewrite merge_keys_no_object by (intros; simpl; eauto).
    destruct (existsb _ default_keys); [eexists; split; [reflexivity|done]|done].
Qed.

Lemma load_config_array_or_string_witness :
  load_config (FileLoads (Ok (JArr [JInt 1; JStr "x"]))) = Ok default_dict.
Proof.
  exact (load_config_array_or_string (JArr [JInt 1; JStr "x"])
           (or_introl (ex_intro _ [JInt 1; JStr "x"] eq_refl))).
Defined.

(** X3. With no [config.json], or when opening or parsing it raises a
    [JSONDecodeError] or an [OSError] (or a subclass of one), [load_config]
    returns exactly the built-in defaults. *)
Theorem load_config_falls_back :
  load_config NoFile
    = Ok (list_to_map [("app_id", JInt 1); ("start_address", JInt 0);
                       ("block_size", JInt 512); ("ring_type", JInt 8);
                       ("force_flags", JInt 0); ("reboot_wait", JInt 10)])
  /\ forall e,
      issubclass (exc_type e) JSONDecodeError = true
      \/ issubclass (exc_type e) OSError = true ->
      load_config (FileLoads (Raised e))
      = Ok (list_to_map [("app_id", JInt 1); ("start_address", JInt 0);
                         ("block_size", JInt 512); ("ring_type", JInt 8);
                         ("force_flags", JInt 0); ("reboot_wait", JInt 10)]).
Proof.
  split; [done|]. intros e He. apply load_config_caught.
  unfold isinstance. destruct He as [-> | ->]; [done|]. apply orb_true_r.
Qed.

(** ** More on the progress store *)

Lemma round_half_even_floor q :
  round_half_even q = Qfloor q \/ round_half_even q = Qfloor q + 1.
Proof.
  unfold round_half_even. destruct (q - inject_Z (Qfloor q) ?= 1 # 2)%Q; auto.
  destruct (Z.even (Qfloor q)); auto.
Qed.







(** ** More on single calls *)

Lemma calls_app tr1 tr2 : calls (tr1 ++ tr2) = calls tr1 ++ calls tr2.
Proof. apply omap_app. Qed.


Lemma calls_cons_call c tr : calls (LAct (Call c) :: tr) = c :: calls tr.
Proof. done. Qed.

Lemma calls_relay_steps events : calls (relay_steps events) = [].
Proof. induction events as [|ev events IH]; [done|]. simpl. apply IH. Qed.



Section Outcomes.

Variable fs : config_file.
Variables (firmware_path version target_name hw_id : string) (timeout : Z).
Variable pc : controller.
Variable i : tid.

#[local] Abbreviation run_body :=
  (run_body fs firmware_path version target_name hw_id timeout pc).
#[local] Abbreviation run :=
  (run fs firmware_path version target_name hw_id timeout pc).
#[local] Abbreviation start_dfu :=
  (start_dfu (Some pc) fs firmware_path version target_name hw_id timeout).
#[local] Abbreviation resolved := (resolved firmware_path version).

(** The calls the [try] body makes: each one only if those before it
    returned. *)
#[local] Abbreviation body_calls :=
 (CallInit hw_id "ble" ::
  match pc_init pc hw_id "ble" with
  | Raised _ => []
  | Ok _ =>
      CallConfigure target_name timeout ::
      match pc_configure pc target_name timeout with
      | Raised _ => []
      | Ok _ =>
          CallSetProgressCallback ::
          match pc_set_progress_callback pc with
          | Raised _ => []
          | Ok _ =>
              CallLoadConfig ::
              match load_config fs with
              | Raised _ => []
              | Ok cfg => [CallPerformDfu (resolved cfg)]
              end
          end
      end
  end).

Ltac step_ok lem := erewrite exec_bind_ok by apply lem; cbn [after].
Ltac run_call := erewrite exec_bind_ok by (unfold call; simpl; reflexivity); cbn [after].
Ltac run_raises := erewrite exec_bind_raised by (simpl; reflexivity).

Lemma exec_run_body_outcome pr rn :
  exists r pr' tr,
    exec i run_body (MkApi pr None rn) = Some (r, MkApi pr' None rn, tr)
    /\ (forall b, r = Ok b -> pr' = if b then completed else failed)
    /\ calls tr = body_calls.
Proof.
  destruct (pc_init pc hw_id "ble") as [[]|e] eqn:Hi.
  2:{ unfold run_body. rewrite Hi. step_ok exec_set_progress. run_raises.
      eexists _, _, _. split; [done|]. split; done. }
  destruct (pc_configure pc target_name timeout) as [[]|e] eqn:Hc.
  2:{ unfold run_body. rewrite Hi, Hc. step_ok exec_set_progress. run_call.
      run_raises. eexists _, _, _. split; [done|]. split; done. }
  destruct (pc_set_progress_callback pc) as [[]|e] eqn:Hs.
  2:{ unfold run_body. rewrite Hi, Hc, Hs. step_ok exec_set_progress.
      do 2 run_call. run_raises. eexists _, _, _. split; [done|]. split; done. }
  destruct (load_config fs) as [cfg|e] eqn:Hl.
  2:{ unfold run_body. rewrite Hi, Hc, Hs, Hl. step_ok exec_set_progress.
      do 3 run_call. step_ok exec_set_progress. run_raises.
      eexists _, _, _. split; [done|]. split; done. }
  rewrite (exec_run_body_perform _ _ _ _ _ _ _ _ cfg) by done.
  destruct (snd (pc_perform_dfu pc (resolved cfg))) as [b|e].
  - eexists _, _, _. split; [done|]. split; [by intros ? [= <-]|].
    unfold prelude. rewrite !calls_app, calls_relay_steps. done.
  - eexists _, _, _. split; [done|]. split; [done|].
    unfold prelude. rewrite !calls_app, calls_relay_steps. done.
Qed.


Lemma exec_start_dfu_outcome pr :
  exists r pr' tr,
    exec i run_body (MkApi starting None true) = Some (r, MkApi pr' None true, tr)
    /\ (forall b, r = Ok b -> pr' = if b then completed else failed)
    /\ calls tr = body_calls
    /\ exec i start_dfu (MkApi pr None false)
       = Some (delivered r, MkApi (settled r pr') None false,
               admission_steps ++
               LAct (Call CallThreadStart) ::
               (tr ++ handler_steps r ++ reset_steps) ++ [LAct (Call CallThreadJoin)]).
Proof.
  destruct (exec_run_body_outcome starting true) as (r & pr' & tr & Hb & Hsnap & Hcalls).
  exists r, pr', tr. repeat split; try done.
  apply exec_start_dfu_admitted. by apply exec_run_of_body.
Qed.

End Outcomes.


Lemma start_dfu_calls pc fs firmware_path version target_name hw_id timeout i pr :
  exists r st' tr,
    exec i (start_dfu (Some pc) fs firmware_path version target_name hw_id timeout)
         (MkApi pr None false) = Some (r, st', tr)
    /\ calls tr =
       CallThreadStart ::
       CallInit hw_id "ble" ::
       match pc_init pc hw_id "ble" with
       | Raised _ => []
       | Ok _ =>
           CallConfigure target_name timeout ::
           match pc_configure pc target_name timeout with
           | Raised _ => []
           | Ok _ =>
               CallSetProgressCallback ::
               match pc_set_progress_callback pc with
               | Raised _ => []
               | Ok _ =>
                   CallLoadConfig ::
                   match load_config fs with
                   | Raised _ => []
                   | Ok cfg => [CallPerformDfu (resolved firmware_path version cfg)]
                   end
               end
           end
       end ++ [CallThreadJoin].
Proof.
  destruct (exec_start_dfu_outcome fs firmware_path version target_name hw_id timeout
              pc i pr) as (r & pr' & tr & _ & _ & Hcalls & Hrun).
  rewrite Hrun. eexists _, _, _. split; [done|].
  rewrite calls_app, calls_cons_call, !calls_app, Hcalls.
  assert (calls (handler_steps r) = []) as ->.
  { destruct r as [|e]; [done|]. simpl. by destruct (isinstance e Exception). }
  change (calls admission_steps) with (@nil ext_call).
  change (calls reset_steps) with (@nil ext_call).
  change (calls [LAct (Call CallThreadJoin)]) with [CallThreadJoin].
  cbn [app]. by rewrite ?app_nil_r.
Qed.

(** X8. An admitted call makes its outside calls in a fixed order, each
    only if all those before it returned: start the thread, construct the
    controller, configure it, register the callback, load the
    configuration, call [perform_dfu], join the thread.  In particular
    [perform_dfu] is not called when the configuration cannot be loaded.
    A rejected call makes no outside call at all. *)
Theorem start_dfu_calls_in_order
    pc fs firmware_path version target_name hw_id timeout i pr :
  (exists r st' tr,
     exec i (start_dfu (Some pc) fs firmware_path version target_name hw_id timeout)
          (MkApi pr None false) = Some (r, st', tr)
     /\ calls tr =
        CallThreadStart ::
        CallInit hw_id "ble" ::
        match pc_init pc hw_id "ble" with
        | Raised _ => []
        | Ok _ =>
            CallConfigure target_name timeout ::
            match pc_configure pc target_name timeout with
            | Raised _ => []
            | Ok _ =>
                CallSetProgressCallback ::
                match pc_set_progress_callback pc with
                | Raised _ => []
                | Ok _ =>
                    CallLoadConfig ::
                    match load_config fs with
                    | Raised _ => []
                    | Ok cfg =>
                        [CallPerformDfu
                           {| arg_firmware_path := firmware_path;
                              arg_app_id := cfg !!! "app_id";
                              arg_version := version;
                              arg_start_address := cfg !!! "start_address";
                              arg_block_size := cfg !!! "block_size";
                              arg_ring_type := cfg !!! "ring_type";
                              arg_force_flags := cfg !!! "force_flags";
                              arg_reboot_wait := cfg !!! "reboot_wait" |}]
                    end
                end
            end
        end ++ [CallThreadJoin])
  /\ (exists r st' tr,
     exec i (start_dfu (Some pc) fs firmware_path version target_name hw_id timeout)
          (MkApi pr None true) = Some (r, st', tr)
     /\ calls tr = []).
Proof.
  split.
  - apply start_dfu_calls.
  - rewrite exec_start_dfu_rejected. by eexists _, _, _.
Qed.

Lemma writes_cons_write s tr : writes (LAct (SetProgress s) :: tr) = s :: writes tr.
Proof. done. Qed.








(** X15. The values [get_defaults] hands to the form are the ones the
    job uses: a call of [start_dfu] with them, while [config.json] is
    unchanged, constructs the controller for "BEM_04", configures it for
    "oura_" with timeout 10, and calls [perform_dfu] with the default
    firmware path, version "0.2.12" and the advanced settings shown. *)
Theorem get_defaults_feed_start_dfu pc f default_firmware_path d i pr :
  get_defaults default_firmware_path f = Ok d ->
  pc_init pc "BEM_04" "ble" = Ok tt ->
  pc_configure pc "oura_" 10 = Ok tt ->
  pc_set_progress_callback pc = Ok tt ->
  exists r st' tr,
    exec i (start_dfu (Some pc) f (form_firmware_path d) (form_version d)
              (form_target_name d) (form_hw_id d) (form_timeout d))
         (MkApi pr None false) = Some (r, st', tr)
    /\ calls tr =
       [CallThreadStart; CallInit "BEM_04" "ble"; CallConfigure "oura_" 10;
        CallSetProgressCallback; CallLoadConfig;
        CallPerformDfu
          {| arg_firmware_path := default_firmware_path;
             arg_app_id := form_advanced d !!! "app_id";
             arg_version := "0.2.12";
             arg_start_address := form_advanced d !!! "start_address";
             arg_block_size := form_advanced d !!! "block_size";
             arg_ring_type := form_advanced d !!! "ring_type";
             arg_force_flags := form_advanced d !!! "force_flags";
             arg_reboot_wait := form_advanced d !!! "reboot_wait" |};
        CallThreadJoin].
Proof.
  unfold get_defaults. destruct (load_config f) as [cfg|e] eqn:Hl; [|done].
  intros [= <-] Hi Hc Hs. cbn [form_firmware_path form_version form_target_name
                                form_hw_id form_timeout form_advanced].
  destruct (start_dfu_calls pc f default_firmware_path "0.2.12" "oura_" "BEM_04" 10 i pr)
    as (r & st' & tr & Hrun & Hcalls).
  exists r, st', tr. split; [done|]. by rewrite Hcalls, Hi, Hc, Hs, Hl.
Qed.

Lemma get_defaults_feed_start_dfu_witness :
  exists r st' tr,
    exec T1 (start_dfu (Some quiet) NoFile "/opt/ffu/fw.bin" "0.2.12" "oura_" "BEM_04" 10)
         init_api = Some (r, st', tr)
    /\ calls tr =
       [CallThreadStart; CallInit "BEM_04" "ble"; CallConfigure "oura_" 10;
        CallSetProgressCallback; CallLoadConfig;
        CallPerformDfu
          {| arg_firmware_path := "/opt/ffu/fw.bin";
             arg_app_id := JInt 1;
             arg_version := "0.2.12";
             arg_start_address := JInt 0;
             arg_block_size := JInt 512;
             arg_ring_type := JInt 8;
             arg_force_flags := JInt 0;
             arg_reboot_wait := JInt 10 |};
        CallThreadJoin].
Proof.
  exact (get_defaults_feed_start_dfu quiet NoFile "/opt/ffu/fw.bin" _ T1
           (_progress init_api) eq_refl eq_refl eq_refl eq_refl).
Defined.

(** ** More on two calls at once *)

Lemma single_flight_lock_use s i :
  single_flight s ->
  match thread s i with
  | Act Acquire _ => _progress_lock (shared s) <> Some i
  | Act Release _ | Act (SetRunning _) _ | Act (SetProgress _) _ | IfRunning _ _ =>
      _progress_lock (shared s) = Some i
  | Act (Call _) _ => True
  | Done _ => _progress_lock (shared s) <> Some i
  end.
Proof.
  intros [Hd Hl _ _ _ _ _]. specialize (Hd i). specialize (Hl i).
  destruct (thread s i) as [r|[| |[]| |] k|kt kf]; simpl in Hd; try done.
  - destruct Hd as [Hh _]. rewrite <- Hl, Hh. done.
  - destruct Hd as [Hh _]. rewrite <- Hl, Hh. done.
  - destruct Hd as [Hh _]. by apply Hl.
  - destruct Hd as [Hh _]. by apply Hl.
  - destruct Hd as [Hh _]. by apply Hl.
  - destruct Hd as [Hh _]. by apply Hl.
  - destruct Hd as [Hh _]. by apply Hl.
Qed.

Lemma tstep_blocked {R} i (p : prog R) st :
  tstep i p st = None ->
  (exists r, p = Done r)
  \/ (exists k j, p = Act Acquire k /\ _progress_lock st = Some j)
  \/ (exists k, p = Act Release k /\ _progress_lock st <> Some i).
Proof.
  destruct p as [r|a k|kt kf]; simpl; [eauto| |done].
  destruct a; simpl; try done.
  - destruct (_progress_lock st) as [j|]; [|done]. intros _. right; left. eauto.
  - case_bool_decide; [done|]. intros _. right; right. eauto.
Qed.

Lemma cstep_of_tstep i s :
  tstep i (thread s i) (shared s) <> None -> exists s', cstep i s = Some s'.
Proof.
  unfold cstep. destruct (tstep i (thread s i) (shared s)) as [[[l p'] st']|]; [|done].
  eauto.
Qed.

Lemma single_flight_progress s :
  single_flight s ->
  (exists r1 r2, thr1 s = Done r1 /\ thr2 s = Done r2)
  \/ (exists i s', cstep i s = Some s').
Proof.
  intros Hsf.
  assert (forall i, (exists r, thread s i = Done r) \/
                    (exists s', cstep i s = Some s') \/
                    (exists s', cstep (other i) s = Some s')) as Hcase.
  { intros i.
    destruct (tstep i (thread s i) (shared s)) as [x|] eqn:Hstep.
    { right; left. apply cstep_of_tstep. by rewrite Hstep. }
    pose proof (single_flight_lock_use s i Hsf) as Hi.
    apply tstep_blocked in Hstep as [Hdone|[(k & j & Hp & Hlk)|(k & Hp & Hlk)]].
    - by left.
    - right; right. rewrite Hp in Hi.
      assert (j = other i) as -> by (destruct i, j; simpl; congruence).
      apply cstep_of_tstep. intros Hblocked.
      pose proof (single_flight_lock_use s (other i) Hsf) as Ho.
      apply tstep_blocked in Hblocked as [[r Hq]|[(k' & j' & Hq & _)|(k' & Hq & Hlk')]];
        rewrite Hq in Ho; done.
    - rewrite Hp in Hi. done. }
  destruct (Hcase T1) as [[r1 H1]|[[s' H1]|[s' H1]]]; [|right; eauto..].
  destruct (Hcase T2) as [[r2 H2]|[[s' H2]|[s' H2]]]; [|right; eauto..].
  left. eauto.
Qed.

Lemma tstep_size {R} i (p p' : prog R) st st' l :
  tstep i p st = Some (l, p', st') -> (size p' < size p)%nat.
Proof.
  destruct p as [r|a k|kt kf]; simpl; [done| |].
  - destruct (do_action i a st); [|done]. intros [= _ <- _]. lia.
  - intros [= _ <- _]. destruct (_running st); lia.
Qed.

Lemma cstep_measure i s s' :
  cstep i s = Some s' ->
  (length (history s') + size (thr1 s') + size (thr2 s')
   <= length (history s) + size (thr1 s) + size (thr2 s))%nat.
Proof.
  unfold cstep. destruct (tstep i (thread s i) (shared s)) as [[[l p'] st']|] eqn:Hstep;
    [|done].
  apply tstep_size in Hstep. intros [= <-].
  destruct i; simpl in *; rewrite length_app; simpl; lia.
Qed.

Lemma reachable_measure s0 s :
  reachable s0 s ->
  (length (history s) + size (thr1 s) + size (thr2 s)
   <= length (history s0) + size (thr1 s0) + size (thr2 s0))%nat.
Proof.
  induction 1 as [|s i s' _ IH Hstep]; [done|].
  apply cstep_measure in Hstep. lia.
Qed.

(** X12. Two calls of [start_dfu] running at once never deadlock: in
    every state they can reach, either both calls have ended or one of
    them can take a step; and the steps taken so far plus those still to
    come never exceed the sizes of the two calls, so every run ends. *)
Theorem two_calls_never_deadlock
    pc1 pc2 fs1 fs2 fw1 ver1 tgt1 hw1 tmo1 fw2 ver2 tgt2 hw2 tmo2 s :
  reachable (two_calls pc1 pc2 fs1 fs2 fw1 ver1 tgt1 hw1 tmo1 fw2 ver2 tgt2 hw2 tmo2) s ->
  ((exists r1 r2, thr1 s = Done r1 /\ thr2 s = Done r2)
   \/ (exists i s', cstep i s = Some s'))
  /\ (length (history s) + size (thr1 s) + size (thr2 s)
      <= size (start_dfu (Some pc1) fs1 fw1 ver1 tgt1 hw1 tmo1)
         + size (start_dfu (Some pc2) fs2 fw2 ver2 tgt2 hw2 tmo2))%nat.
Proof.
  intros Hreach. split.
  - apply single_flight_progress.
    eapply single_flight_reachable; [apply single_flight_two_calls|done].
  - apply reachable_measure in Hreach. exact Hreach.
Qed.

(** X13. With two calls running at once, a call reads or writes
    [_running] or writes [_progress] only while it holds the lock, never
    asks for the lock while holding it, and does not hold it when it
    ends. *)
Theorem two_calls_lock_discipline
    pc1 pc2 fs1 fs2 fw1 ver1 tgt1 hw1 tmo1 fw2 ver2 tgt2 hw2 tmo2 s i :
  reachable (two_calls pc1 pc2 fs1 fs2 fw1 ver1 tgt1 hw1 tmo1 fw2 ver2 tgt2 hw2 tmo2) s ->
  match thread s i with
  | Act Acquire _ => _progress_lock (shared s) <> Some i
  | Act Release _ | Act (SetRunning _) _ | Act (SetProgress _) _ | IfRunning _ _ =>
      _progress_lock (shared s) = Some i
  | Act (Call _) _ => True
  | Done _ => _progress_lock (shared s) <> Some i
  end.
Proof.
  intros Hreach. apply single_flight_lock_use.
  eapply single_flight_reachable; [apply single_flight_two_calls|done].
Qed.

Lemma two_calls_never_deadlock_witness :
  exists i s',
    cstep i (two_calls quiet quiet NoFile NoFile
               "fw.bin" "0.2.12" "oura_" "BEM_04" 10
               "fw.bin" "0.2.12" "oura_" "BEM_04" 10) = Some s'.
Proof.
  destruct (proj1 (two_calls_never_deadlock quiet quiet NoFile NoFile
                     "fw.bin" "0.2.12" "oura_" "BEM_04" 10
                     "fw.bin" "0.2.12" "oura_" "BEM_04" 10 _ (reachable_start _)))
    as [(r1 & r2 & Hdone & _)|Hstep].
  - discriminate Hdone.
  - exact Hstep.
Defined.

Lemma two_calls_lock_discipline_witness : _progress_lock init_api <> Some T1.
Proof.
  exact (two_calls_lock_discipline quiet quiet NoFile NoFile
           "fw.bin" "0.2.12" "oura_" "BEM_04" 10
           "fw.bin" "0.2.12" "oura_" "BEM_04" 10 _ T1 (reachable_start _)).
Defined.
